(** * Donky generative fill: the interactive masking engine

    A shallow embedding of [src/components/CanvasEditor.tsx] (with the
    types of [src/types.ts] and the brush-size bounds of [src/App.tsx]).

    JavaScript numbers are idealised as rationals ([Q]); integer-valued
    DOM attributes ([img.width], [canvas.width], [window.innerWidth]) are
    [Z].  The rationals are exact where binary64 rounds: what the spec
    states up to floating-point tolerance is proved exactly, and the
    further bounds on products and quotients are stated with a tolerance
    or in a form that rounding preserves (signs, order, results that are
    exact).  The browser facilities the component calls (image cache,
    canvas 2D context, anti-aliasing rasteriser) are gathered in a
    [Platform] record. *)

From Stdlib Require Import ZArith QArith Qminmax Qround List String Bool Lia Lqa.
From Stdlib Require Import Permutation.
Import ListNotations.

Open Scope Q_scope.

(** ** types.ts *)

Record Point := mkPoint { x : Q; y : Q }.

Record DrawPath := mkDrawPath { points : list Point; brushSize : Q }.

(** Two points denote the same location when their coordinates are equal
    as rationals. *)
Definition Point_eq (p q : Point) : Prop := x p == x q /\ y p == y q.

(** ** JavaScript helpers *)

Inductive JsError := TypeError.

(** Result of evaluating a JavaScript expression that may throw. *)
Inductive Completion (A : Type) :=
| Normal (a : A)
| Throw (e : JsError).
Arguments Normal {A} a.
Arguments Throw {A} e.

(** [Array.prototype.slice(start, end)]: negative indices count from the
    end, everything is clamped to [0, length]. *)
Definition js_slice {A : Type} (l : list A) (start finish : Z) : list A :=
  let len := Z.of_nat (List.length l) in
  let k := if (start <? 0)%Z then Z.max (len + start) 0 else Z.min start len in
  let fin := if (finish <? 0)%Z then Z.max (len + finish) 0 else Z.min finish len in
  firstn (Z.to_nat (fin - k)) (skipn (Z.to_nat k) l).

(** [Math.min(a, b, c)] on finite numbers. *)
Definition Math_min3 (a b c : Q) : Q := Qmin (Qmin a b) c.

(** ** DOM events *)

Record Touch := mkTouch { touch_clientX : Q; touch_clientY : Q }.

(** [React.MouseEvent | React.TouchEvent]; the test ['touches' in e]
    distinguishes the two constructors. *)
Inductive PointerEvent :=
| MouseEvent (clientX clientY : Q)
| TouchEvent (touches : list Touch).

Record DOMRect := mkRect { left : Q; top : Q }.

(** ** Geometry: display scale and pointer mapping *)

(** Lines 43-45 of the image [onload] handler. *)
Definition computeScale (w h maxWidth maxHeight : Q) : Q :=
  let scaleW := maxWidth / w in
  let scaleH := maxHeight / h in
  Math_min3 scaleW scaleH 1.

(** Lines 37-38: the bounds the handler derives from the viewport. *)
Definition viewportMaxWidth (innerWidth : Z) : Q :=
  Qmin (inject_Z (innerWidth - 32)) 800.
Definition viewportMaxHeight : Q := 600.

(** Lines 66-69: the image-space point of a pointer position. *)
Definition toImageSpace (pointerX pointerY originX originY scale : Q) : Point :=
  {| x := (pointerX - originX) / scale; y := (pointerY - originY) / scale |}.

(** [getCoordinates]: [canvasRef] is the bounding rectangle of the mounted
    canvas, [None] when [canvasRef.current] is null.  Reading
    [e.touches[0].clientX] on an empty list dereferences [undefined]. *)
Definition getCoordinates (canvasRef : option DOMRect) (scale : Q)
    (e : PointerEvent) : Completion (option Point) :=
  match canvasRef with
  | None => Normal None
  | Some rect =>
      match e with
      | TouchEvent touches =>
          match nth_error touches 0 with
          | None => Throw TypeError
          | Some t =>
              Normal (Some (toImageSpace (touch_clientX t) (touch_clientY t)
                                         (left rect) (top rect) scale))
          end
      | MouseEvent clientX clientY =>
          Normal (Some (toImageSpace clientX clientY (left rect) (top rect) scale))
      end
  end.

(** ** Canvas 2D: bitmaps, compositing, paths

    Pixels are 8-bit premultiplied RGBA, as in a canvas backing store.
    A bitmap is a function from pixel coordinates; only coordinates
    inside the canvas bounds are part of the raster. *)

Open Scope Z_scope.

Record Pixel := mkPixel { red : Z; green : Z; blue : Z; alpha : Z }.

Definition transparentBlack : Pixel := mkPixel 0 0 0 0.
Definition opaqueBlack : Pixel := mkPixel 0 0 0 255.
(** ['rgba(255, 0, 0, 0.5)'], premultiplied; the alpha of one half as
    the 8-bit value 127. *)
Definition translucentRed : Pixel := mkPixel 127 0 0 127.

Inductive CompositeOp := SourceOver | DestinationOut.
Inductive LineCap := CapButt | CapRound | CapSquare.
Inductive LineJoin := JoinMiter | JoinRound | JoinBevel.

(** A channel scaled by [k / 255], rounded to the nearest integer. *)
Definition scaleChannel (c k : Z) : Z := (c * k + 127) / 255.

(** Porter-Duff operators on premultiplied pixels:
    source-over is [s + d*(1 - as)], destination-out is [d*(1 - as)],
    each product rounded to 8 bits. *)
Definition composite (op : CompositeOp) (src dst : Pixel) : Pixel :=
  let k := 255 - alpha src in
  match op with
  | SourceOver =>
      mkPixel (red src + scaleChannel (red dst) k)
              (green src + scaleChannel (green dst) k)
              (blue src + scaleChannel (blue dst) k)
              (alpha src + scaleChannel (alpha dst) k)
  | DestinationOut =>
      mkPixel (scaleChannel (red dst) k) (scaleChannel (green dst) k)
              (scaleChannel (blue dst) k) (scaleChannel (alpha dst) k)
  end.

(** A decoded image. *)
Record ImageBitmap := mkImage {
  naturalWidth : Z;
  naturalHeight : Z;
  sample : Z -> Z -> Pixel
}.

(** The element made by [new Image(); img.src = src], read immediately:
    [Some] when the browser has the decoded image at hand ([complete]),
    [None] while it is still loading. *)
Definition HTMLImageElement := option ImageBitmap.

Definition complete (img : HTMLImageElement) : bool :=
  match img with Some _ => true | None => false end.

Record Context2D := mkContext {
  canvas_width : Z;
  canvas_height : Z;
  bitmap : Z -> Z -> Pixel;
  globalCompositeOperation : CompositeOp;
  lineCap : LineCap;
  lineJoin : LineJoin;
  lineWidth : Q;
  strokeStyle : Pixel;
  subpaths : list (list Point)
}.

(** What the component needs from the browser.  [rasterize] is the
    canvas's anti-aliasing rasteriser: the share of a pixel that the
    outline of a stroked path covers, in 255ths (0 for a pixel the outline
    misses, 255 for one it fills, in between at the rim). *)
Record Platform := mkPlatform {
  innerWidth : Z;
  canvasRef : option DOMRect;
  getContext2d : bool;
  loadImage : string -> HTMLImageElement;
  rasterize : LineCap -> LineJoin -> Q -> list (list Point) -> Z -> Z -> Z
}.

(** A canvas whose [width] and [height] were just assigned: cleared
    bitmap, default drawing state. *)
Definition createCanvas (w h : Z) : Context2D :=
  {| canvas_width := w; canvas_height := h;
     bitmap := fun _ _ => transparentBlack;
     globalCompositeOperation := SourceOver;
     lineCap := CapButt; lineJoin := JoinMiter; lineWidth := 1%Q;
     strokeStyle := opaqueBlack; subpaths := [] |}.

Definition inCanvas (c : Context2D) (i j : Z) : bool :=
  (0 <=? i) && (i <? canvas_width c) && (0 <=? j) && (j <? canvas_height c).

Definition set_bitmap (b : Z -> Z -> Pixel) (c : Context2D) : Context2D :=
  mkContext (canvas_width c) (canvas_height c) b (globalCompositeOperation c)
            (lineCap c) (lineJoin c) (lineWidth c) (strokeStyle c) (subpaths c).

Definition set_globalCompositeOperation (op : CompositeOp) (c : Context2D) : Context2D :=
  mkContext (canvas_width c) (canvas_height c) (bitmap c) op
            (lineCap c) (lineJoin c) (lineWidth c) (strokeStyle c) (subpaths c).

Definition set_lineCap (v : LineCap) (c : Context2D) : Context2D :=
  mkContext (canvas_width c) (canvas_height c) (bitmap c) (globalCompositeOperation c)
            v (lineJoin c) (lineWidth c) (strokeStyle c) (subpaths c).

Definition set_lineJoin (v : LineJoin) (c : Context2D) : Context2D :=
  mkContext (canvas_width c) (canvas_height c) (bitmap c) (globalCompositeOperation c)
            (lineCap c) v (lineWidth c) (strokeStyle c) (subpaths c).

(** Assigning a zero or negative width is ignored by the canvas. *)
Definition set_lineWidth (v : Q) (c : Context2D) : Context2D :=
  if Qlt_le_dec 0 v then
    mkContext (canvas_width c) (canvas_height c) (bitmap c) (globalCompositeOperation c)
              (lineCap c) (lineJoin c) v (strokeStyle c) (subpaths c)
  else c.

Definition set_strokeStyle (v : Pixel) (c : Context2D) : Context2D :=
  mkContext (canvas_width c) (canvas_height c) (bitmap c) (globalCompositeOperation c)
            (lineCap c) (lineJoin c) (lineWidth c) v (subpaths c).

Definition set_subpaths (v : list (list Point)) (c : Context2D) : Context2D :=
  mkContext (canvas_width c) (canvas_height c) (bitmap c) (globalCompositeOperation c)
            (lineCap c) (lineJoin c) (lineWidth c) (strokeStyle c) v.

Definition beginPath (c : Context2D) : Context2D := set_subpaths [] c.

Definition moveTo (p : Point) (c : Context2D) : Context2D :=
  set_subpaths (subpaths c ++ [[p]]) c.

(** [lineTo] extends the last subpath; on an empty path it behaves as
    [moveTo]. *)
Definition lineTo (p : Point) (c : Context2D) : Context2D :=
  match rev (subpaths c) with
  | [] => moveTo p c
  | s :: earlier => set_subpaths (rev earlier ++ [s ++ [p]]) c
  end.

(** A coverage is a share of a pixel in 255ths. *)
Definition clampCoverage (v : Z) : Z := Z.max 0 (Z.min 255 v).

(** The source colour of a pixel covered in part: the (premultiplied)
    stroke colour weighted by the coverage. *)
Definition coverPixel (cov : Z) (p : Pixel) : Pixel :=
  mkPixel (scaleChannel (red p) cov) (scaleChannel (green p) cov)
          (scaleChannel (blue p) cov) (scaleChannel (alpha p) cov).

(** [stroke]: every canvas pixel that the outline of the current path
    touches is composited with the stroke colour weighted by the coverage
    the rasteriser reports for it; the other pixels are left alone. *)
Definition stroke (pf : Platform) (c : Context2D) : Context2D :=
  set_bitmap
    (fun i j =>
       let cov :=
         clampCoverage
           (rasterize pf (lineCap c) (lineJoin c) (lineWidth c) (subpaths c) i j) in
       if inCanvas c i j && (0 <? cov)
       then composite (globalCompositeOperation c)
                      (coverPixel cov (strokeStyle c)) (bitmap c i j)
       else bitmap c i j)
    c.

(** [drawImage(img, dx, dy, dw, dh)]: nothing is drawn for an image that
    is not complete or has an empty raster, or for an empty destination;
    otherwise the image is resampled (nearest source pixel) into the
    destination rectangle. *)
Definition drawImage (img : HTMLImageElement) (dx dy dw dh : Z)
    (c : Context2D) : Context2D :=
  match img with
  | None => c
  | Some bm =>
      if (naturalWidth bm <=? 0) || (naturalHeight bm <=? 0)
         || (dw <=? 0) || (dh <=? 0)
      then c
      else
        set_bitmap
          (fun i j =>
             if inCanvas c i j
                && (dx <=? i) && (i <? dx + dw) && (dy <=? j) && (j <? dy + dh)
             then composite (globalCompositeOperation c)
                    (sample bm ((i - dx) * naturalWidth bm / dw)
                               ((j - dy) * naturalHeight bm / dh))
                    (bitmap c i j)
             else bitmap c i j)
          c
  end.

(** The string handed to [onExportImageForAI]: [''] when no context could
    be had, ["data:,"] for a canvas without pixels, otherwise the PNG of
    the bitmap (a lossless encoding, kept as the raster itself). *)
Inductive DataURL :=
| EmptyURL
| DataComma
| Png (w h : Z) (px : Z -> Z -> Pixel).

Definition toDataURL (c : Context2D) : DataURL :=
  if (canvas_width c <=? 0) || (canvas_height c <=? 0) then DataComma
  else Png (canvas_width c) (canvas_height c) (bitmap c).

(** The pixel of an exported raster, [None] outside of it. *)
Definition pixelOf (d : DataURL) (i j : Z) : option Pixel :=
  match d with
  | Png w h px =>
      if (0 <=? i) && (i <? w) && (0 <=? j) && (j <? h) then Some (px i j) else None
  | _ => None
  end.

(** The pixel of a decoded image, [None] outside of it. *)
Definition imagePixel (bm : ImageBitmap) (i j : Z) : option Pixel :=
  if (0 <=? i) && (i <? naturalWidth bm) && (0 <=? j) && (j <? naturalHeight bm)
  then Some (sample bm i j) else None.

Definition fullyTransparent (d : DataURL) (i j : Z) : bool :=
  match pixelOf d i j with
  | Some p => alpha p =? 0
  | None => false
  end.

(** ** The CanvasEditor component: props and state *)

Record Props := mkProps {
  imageSrc : string;
  brushSizeProp : Q;            (* the prop [brushSize] *)
  onExportImageForAI : nat      (* identity of the callback *)
}.

Record Dimensions := mkDimensions { width : Z; height : Z }.

(** The seven [useState] cells.  The cells holding arrays or objects also
    carry an identity, renewed by every call of their setter: dependency
    lists compare those by reference. *)
Record State := mkState {
  paths : list DrawPath;
  paths_id : nat;
  isDrawing : bool;
  currentPath : list Point;
  currentPath_id : nat;
  imageDimensions : Dimensions;
  imageDimensions_id : nat;
  scale : Q;
  cursorPos : option Point;
  isHovering : bool
}.

Definition initialState : State :=
  {| paths := []; paths_id := 0;
     isDrawing := false;
     currentPath := []; currentPath_id := 0;
     imageDimensions := mkDimensions 0 0; imageDimensions_id := 0;
     scale := 1%Q;
     cursorPos := None;
     isHovering := false |}.

Definition setPaths (f : list DrawPath -> list DrawPath) (s : State) : State :=
  mkState (f (paths s)) (S (paths_id s)) (isDrawing s)
          (currentPath s) (currentPath_id s)
          (imageDimensions s) (imageDimensions_id s)
          (scale s) (cursorPos s) (isHovering s).

Definition setIsDrawing (b : bool) (s : State) : State :=
  mkState (paths s) (paths_id s) b
          (currentPath s) (currentPath_id s)
          (imageDimensions s) (imageDimensions_id s)
          (scale s) (cursorPos s) (isHovering s).

Definition setCurrentPath (f : list Point -> list Point) (s : State) : State :=
  mkState (paths s) (paths_id s) (isDrawing s)
          (f (currentPath s)) (S (currentPath_id s))
          (imageDimensions s) (imageDimensions_id s)
          (scale s) (cursorPos s) (isHovering s).

Definition setImageDimensions (d : Dimensions) (s : State) : State :=
  mkState (paths s) (paths_id s) (isDrawing s)
          (currentPath s) (currentPath_id s)
          d (S (imageDimensions_id s))
          (scale s) (cursorPos s) (isHovering s).

Definition setScale (v : Q) (s : State) : State :=
  mkState (paths s) (paths_id s) (isDrawing s)
          (currentPath s) (currentPath_id s)
          (imageDimensions s) (imageDimensions_id s)
          v (cursorPos s) (isHovering s).

Definition setCursorPos (p : option Point) (s : State) : State :=
  mkState (paths s) (paths_id s) (isDrawing s)
          (currentPath s) (currentPath_id s)
          (imageDimensions s) (imageDimensions_id s)
          (scale s) p (isHovering s).

Definition setIsHovering (b : bool) (s : State) : State :=
  mkState (paths s) (paths_id s) (isDrawing s)
          (currentPath s) (currentPath_id s)
          (imageDimensions s) (imageDimensions_id s)
          (scale s) (cursorPos s) b.

(** ** Stroke recorder: the event handlers

    A handler runs with the props and state of the last render ([props],
    [s]) and queues updates; functional updaters see the queued value. *)

Definition startDrawing (pf : Platform) (s : State) (e : PointerEvent)
    : Completion State :=
  match getCoordinates (canvasRef pf) (scale s) e with
  | Throw err => Throw err
  | Normal None => Normal s
  | Normal (Some coords) =>
      Normal (setCurrentPath (fun _ => [coords]) (setIsDrawing true s))
  end.

Definition draw (pf : Platform) (s : State) (e : PointerEvent)
    : Completion State :=
  let s1 :=
    match e with
    | MouseEvent clientX clientY =>
        match canvasRef pf with
        | Some rect =>
            setCursorPos (Some {| x := (clientX - left rect)%Q;
                                  y := (clientY - top rect)%Q |}) s
        | None => s
        end
    | TouchEvent _ => s
    end in
  if negb (isDrawing s) then Normal s1
  else
    match getCoordinates (canvasRef pf) (scale s) e with
    | Throw err => Throw err
    | Normal None => Normal s1
    | Normal (Some coords) =>
        Normal (setCurrentPath (fun prev => prev ++ [coords]) s1)
    end.

Definition stopDrawing (props : Props) (s : State) : State :=
  let s1 :=
    if isDrawing s && (0 <? Z.of_nat (List.length (currentPath s)))
    then setPaths (fun prev => prev ++ [ {| points := currentPath s;
                                           brushSize := brushSizeProp props |} ]) s
    else s in
  setCurrentPath (fun _ => []) (setIsDrawing false s1).

Definition handleMouseEnter (s : State) : State := setIsHovering true s.

Definition handleMouseLeave (props : Props) (s : State) : State :=
  stopDrawing props (setIsHovering false s).

Definition handleUndo (s : State) : State :=
  setPaths (fun prev => js_slice prev 0 (-1)) s.

Definition handleClear (s : State) : State := setPaths (fun _ => []) s.

(** [img.onload] of the image created by the load effect. *)
Definition img_onload (pf : Platform) (imgWidth imgHeight : Z) (s : State) : State :=
  let maxWidth := viewportMaxWidth (innerWidth pf) in
  let maxHeight := viewportMaxHeight in
  let w := imgWidth in
  let h := imgHeight in
  let scaleFactor := computeScale (inject_Z w) (inject_Z h) maxWidth maxHeight in
  setScale scaleFactor (setImageDimensions (mkDimensions w h) s).

(** ** Overlay renderer and mask compositor *)

(** [ctx.moveTo(points[0]); points.forEach(p => ctx.lineTo(p))], guarded
    by [points.length > 0]. *)
Definition tracePoints (pts : list Point) (ctx : Context2D) : Context2D :=
  match pts with
  | [] => ctx
  | p0 :: _ => fold_left (fun c p => lineTo p c) pts (moveTo p0 ctx)
  end.

(** [renderCanvas]: the visible canvas after the call, [None] when the
    canvas or its context is missing and nothing is drawn. *)
Definition renderCanvas (pf : Platform) (props : Props) (s : State)
    : option Context2D :=
  match canvasRef pf with
  | None => None
  | Some _ =>
      if negb (getContext2d pf) then None
      else
        let ctx := createCanvas (width (imageDimensions s))
                                (height (imageDimensions s)) in
        let img := loadImage pf (imageSrc props) in
        let ctx :=
          if complete img
          then drawImage img 0 0 (width (imageDimensions s))
                         (height (imageDimensions s)) ctx
          else ctx in
        let ctx := set_lineCap CapRound ctx in
        let ctx := set_lineJoin JoinRound ctx in
        let ctx :=
          fold_left
            (fun ctx path =>
               let ctx := beginPath ctx in
               let ctx := set_strokeStyle translucentRed ctx in
               let ctx := set_lineWidth (brushSize path) ctx in
               let ctx := tracePoints (points path) ctx in
               stroke pf ctx)
            (paths s) ctx in
        let ctx :=
          if (0 <? Z.of_nat (List.length (currentPath s)))
          then
            let ctx := beginPath ctx in
            let ctx := set_strokeStyle translucentRed ctx in
            let ctx := set_lineWidth (brushSizeProp props) ctx in
            let ctx := tracePoints (currentPath s) ctx in
            stroke pf ctx
          else ctx in
        Some ctx
  end.

(** The body of the [paths.forEach] loop of [generateMaskedImage]. *)
Definition eraseStroke (pf : Platform) (ctx : Context2D) (path : DrawPath)
    : Context2D :=
  let ctx := beginPath ctx in
  let ctx := set_lineWidth (brushSize path) ctx in
  let ctx := tracePoints (points path) ctx in
  stroke pf ctx.

(** The off-screen canvas of [generateMaskedImage] just before
    [toDataURL]. *)
Definition maskCanvas (pf : Platform) (props : Props) (s : State) : Context2D :=
  let ctx := createCanvas (width (imageDimensions s))
                          (height (imageDimensions s)) in
  let img := loadImage pf (imageSrc props) in
  let ctx := drawImage img 0 0 (width (imageDimensions s))
                       (height (imageDimensions s)) ctx in
  let ctx := set_globalCompositeOperation DestinationOut ctx in
  let ctx := set_lineCap CapRound ctx in
  let ctx := set_lineJoin JoinRound ctx in
  let ctx := fold_left (eraseStroke pf) (paths s) ctx in
  set_globalCompositeOperation SourceOver ctx.

Definition generateMaskedImage (pf : Platform) (props : Props) (s : State)
    : DataURL :=
  if negb (getContext2d pf) then EmptyURL
  else toDataURL (maskCanvas pf props s).

(** ** Effects and the render cycle *)

Inductive Output :=
| ImageRequested (src : string)
| Painted (c : option Context2D)
| Exported (d : DataURL).

(** The props and state captured by the previous commit, [None] on mount. *)
Definition Closure := option (Props * State).

Definition imageSrc_changed (prev : Closure) (props : Props) : bool :=
  match prev with
  | None => true
  | Some (p0, _) => negb (String.eqb (imageSrc p0) (imageSrc props))
  end.

Definition paths_changed (prev : Closure) (s : State) : bool :=
  match prev with
  | None => true
  | Some (_, s0) => negb (Nat.eqb (paths_id s0) (paths_id s))
  end.

Definition currentPath_changed (prev : Closure) (s : State) : bool :=
  match prev with
  | None => true
  | Some (_, s0) => negb (Nat.eqb (currentPath_id s0) (currentPath_id s))
  end.

Definition imageDimensions_changed (prev : Closure) (s : State) : bool :=
  match prev with
  | None => true
  | Some (_, s0) => negb (Nat.eqb (imageDimensions_id s0) (imageDimensions_id s))
  end.

Definition brushSize_changed (prev : Closure) (props : Props) : bool :=
  match prev with
  | None => true
  | Some (p0, _) => negb (Qeq_bool (brushSizeProp p0) (brushSizeProp props))
  end.

Definition onExport_changed (prev : Closure) (props : Props) : bool :=
  match prev with
  | None => true
  | Some (p0, _) => negb (Nat.eqb (onExportImageForAI p0) (onExportImageForAI props))
  end.

(** Effect of lines 30-50, dependencies [[imageSrc]]. *)
Definition loadEffect (prev : Closure) (props : Props) (s : State)
    : State * list Output :=
  if imageSrc_changed prev props
  then (setCurrentPath (fun _ => []) (setPaths (fun _ => []) s),
        [ImageRequested (imageSrc props)])
  else (s, []).

(** Effect of lines 163-165, dependencies [[renderCanvas]], a callback
    renewed when [imageSrc], [paths], [currentPath], [imageDimensions] or
    [brushSize] changes. *)
Definition renderEffect (pf : Platform) (prev : Closure) (props : Props)
    (s : State) : list Output :=
  if imageSrc_changed prev props || paths_changed prev s
     || currentPath_changed prev s || imageDimensions_changed prev s
     || brushSize_changed prev props
  then [Painted (renderCanvas pf props s)]
  else [].

(** Effect of lines 168-201, dependencies
    [[paths, imageSrc, imageDimensions, onExportImageForAI]]. *)
Definition exportEffect (pf : Platform) (prev : Closure) (props : Props)
    (s : State) : list Output :=
  if paths_changed prev s || imageSrc_changed prev props
     || imageDimensions_changed prev s || onExport_changed prev props
  then
    if 0 <? width (imageDimensions s)
    then [Exported (generateMaskedImage pf props s)]
    else []
  else [].

(** One commit: the three effects run in declaration order, each with the
    props and state of the render being committed; the state updates the
    load effect queues are applied afterwards. *)
Definition commitEffects (pf : Platform) (prev : Closure) (props : Props)
    (s : State) : State * list Output :=
  let '(s', o1) := loadEffect prev props s in
  let o2 := renderEffect pf prev props s in
  let o3 := exportEffect pf prev props s in
  (s', o1 ++ o2 ++ o3).

(** Whether an effect called a setter, so that another render follows. *)
Definition needsRender (s s' : State) : bool :=
  negb (Nat.eqb (paths_id s) (paths_id s'))
  || negb (Nat.eqb (currentPath_id s) (currentPath_id s'))
  || negb (Nat.eqb (imageDimensions_id s) (imageDimensions_id s')).

(** Render and commit until no effect updates the state. *)
Fixpoint flush (fuel : nat) (pf : Platform) (prev : Closure) (props : Props)
    (s : State) : option (State * list Output) :=
  match fuel with
  | O => None
  | S fuel' =>
      let '(s', out) := commitEffects pf prev props s in
      if needsRender s s'
      then
        match flush fuel' pf (Some (props, s)) props s' with
        | Some (s'', out') => Some (s'', out ++ out')
        | None => None
        end
      else Some (s', out)
  end.

Definition settle (pf : Platform) (prev : Closure) (props : Props) (s : State)
    : option (State * list Output) :=
  flush 2 pf prev props s.

(** ** The component as a transition system *)

Inductive Event :=
| EvProps (props : Props)
| EvImageLoad (imgWidth imgHeight : Z)
| EvPointerDown (e : PointerEvent)
| EvPointerMove (e : PointerEvent)
| EvPointerUp
| EvMouseEnter
| EvMouseLeave
| EvUndo
| EvClear.

Record Mounted := mkMounted { m_props : Props; m_state : State }.

(** The props and state after the handler of an event ran.  Events are
    taken one at a time, each after the render cycle of the previous one
    has settled, so a handler reads the current props and state.  A
    handler that throws leaves the state as it was; the undo and clear
    buttons are disabled while [paths] is empty. *)
Definition handle (pf : Platform) (m : Mounted) (ev : Event) : Props * State :=
  let props := m_props m in
  let s := m_state m in
  match ev with
  | EvProps props' => (props', s)
  | EvImageLoad w h => (props, img_onload pf w h s)
  | EvPointerDown e =>
      (props, match startDrawing pf s e with Normal s' => s' | Throw _ => s end)
  | EvPointerMove e =>
      (props, match draw pf s e with Normal s' => s' | Throw _ => s end)
  | EvPointerUp => (props, stopDrawing props s)
  | EvMouseEnter => (props, handleMouseEnter s)
  | EvMouseLeave => (props, handleMouseLeave props s)
  | EvUndo =>
      (props, if Nat.eqb (List.length (paths s)) 0 then s else handleUndo s)
  | EvClear =>
      (props, if Nat.eqb (List.length (paths s)) 0 then s else handleClear s)
  end.

Definition mount (pf : Platform) (props : Props)
    : option (Mounted * list Output) :=
  match settle pf None props initialState with
  | Some (s, out) => Some (mkMounted props s, out)
  | None => None
  end.

Definition step (pf : Platform) (m : Mounted) (ev : Event)
    : option (Mounted * list Output) :=
  let '(props', s') := handle pf m ev in
  match settle pf (Some (m_props m, m_state m)) props' s' with
  | Some (s'', out) => Some (mkMounted props' s'', out)
  | None => None
  end.

(** The outputs of a run of events, in order. *)
Fixpoint run (pf : Platform) (m : Mounted) (evs : list Event)
    : option (Mounted * list Output) :=
  match evs with
  | [] => Some (m, [])
  | ev :: rest =>
      match step pf m ev with
      | Some (m', out) =>
          match run pf m' rest with
          | Some (m'', out') => Some (m'', out ++ out')
          | None => None
          end
      | None => None
      end
  end.

(** ** Auxiliary definitions for the statements *)

(** Follows the spec's wording ([displayCoord = imageCoord * scale]): the
    pointer position at which the image-space point [p] is displayed, for
    a canvas whose top-left corner is at [(originX, originY)]. *)
Definition toDisplaySpace (p : Point) (originX originY scale : Q) : Point :=
  {| x := (x p * scale + originX)%Q; y := (y p * scale + originY)%Q |}.

(** The path [tracePoints] builds on a context whose path was just
    begun: one subpath, starting twice at the first point. *)
Definition tracedSubpaths (pts : list Point) : list (list Point) :=
  match pts with
  | [] => []
  | p0 :: _ => [p0 :: pts]
  end.

(** Coverage of a pixel by a committed stroke under the settings of the
    mask compositor (round caps, round joins, its own brush size), in
    255ths. *)
Definition coverage (pf : Platform) (path : DrawPath) (i j : Z) : Z :=
  clampCoverage
    (rasterize pf CapRound JoinRound (brushSize path)
               (tracedSubpaths (points path)) i j).

(** The pixel lies wholly inside the stroke, resp. wholly outside. *)
Definition fullyCovers (pf : Platform) (i j : Z) (path : DrawPath) : Prop :=
  coverage pf path i j = 255.

Definition misses (pf : Platform) (i j : Z) (path : DrawPath) : Prop :=
  coverage pf path i j = 0.

(** *** A reference rasteriser

    With round caps and round joins the outline of a stroked polyline is
    the set of points within half the line width of it.  The coverage of
    a pixel is measured on an 8x8 grid of sample positions inside it. *)

Definition sqDist (p q : Point) : Q :=
  ((x p - x q) * (x p - x q) + (y p - y q) * (y p - y q))%Q.

Definition sqDistToSegment (p a b : Point) : Q :=
  let dx := (x b - x a)%Q in
  let dy := (y b - y a)%Q in
  let len2 := (dx * dx + dy * dy)%Q in
  if Qeq_bool len2 0 then sqDist p a
  else
    let t := (((x p - x a) * dx + (y p - y a) * dy) / len2)%Q in
    let t := Qmax 0 (Qmin 1 t) in
    sqDist p {| x := (x a + t * dx)%Q; y := (y a + t * dy)%Q |}.

Fixpoint nearPolyline (r2 : Q) (p : Point) (pts : list Point) : bool :=
  match pts with
  | [] => false
  | a :: rest =>
      match rest with
      | [] => Qle_bool (sqDist p a) r2
      | b :: _ => Qle_bool (sqDistToSegment p a b) r2 || nearPolyline r2 p rest
      end
  end.

(** Sample position [(a, b)], [0 <= a, b < 8], of pixel [(i, j)]. *)
Definition subSample (i j a b : Z) : Point :=
  {| x := (inject_Z i + ((2 * a + 1) # 16))%Q;
     y := (inject_Z j + ((2 * b + 1) # 16))%Q |}.

Definition subSamples (i j : Z) : list Point :=
  let grid := [0; 1; 2; 3; 4; 5; 6; 7] in
  flat_map (fun a => map (fun b => subSample i j a b) grid) grid.

Definition roundRasterizer (cap : LineCap) (join : LineJoin) (w : Q)
    (subs : list (list Point)) (i j : Z) : Z :=
  let inside p := existsb (nearPolyline ((w / 2) * (w / 2))%Q p) subs in
  255 * Z.of_nat (List.length (filter inside (subSamples i j))) / 64.

(** *** The mask compositor's canvas before the strokes are erased *)

Definition maskBase (pf : Platform) (props : Props) (s : State) : Context2D :=
  set_lineJoin JoinRound
    (set_lineCap CapRound
       (set_globalCompositeOperation DestinationOut
          (drawImage (loadImage pf (imageSrc props)) 0 0
             (width (imageDimensions s)) (height (imageDimensions s))
             (createCanvas (width (imageDimensions s))
                           (height (imageDimensions s)))))).

(** The drawing state the erase loop relies on. *)
Definition eraseReady (c : Context2D) : Prop :=
  globalCompositeOperation c = DestinationOut
  /\ lineCap c = CapRound /\ lineJoin c = JoinRound
  /\ alpha (strokeStyle c) = 255.

Definition inRaster (w h i j : Z) : bool :=
  (0 <=? i) && (i <? w) && (0 <=? j) && (j <? h).

(** *** Reading the outputs of a run *)

Definition lastExport (out : list Output) : option DataURL :=
  fold_left (fun acc o => match o with Exported d => Some d | _ => acc end)
            out None.

Definition firstExport (out : list Output) : option DataURL :=
  fold_right (fun o acc => match o with Exported d => Some d | _ => acc end)
             None out.


Definition firstPainted (out : list Output) : option Context2D :=
  fold_right (fun o acc => match o with Painted c => c | _ => acc end)
             None out.


(** *** Sample inputs *)

Definition sampleImageA : ImageBitmap :=
  mkImage 320 240 (fun i j => mkPixel (i mod 256) (j mod 256) 7 255).

Definition sampleImageB : ImageBitmap :=
  mkImage 320 240 (fun i j => mkPixel 200 ((i + j) mod 256) 100 255).

Definition sampleImageBig : ImageBitmap :=
  mkImage 1600 1200 (fun i j => mkPixel 9 9 9 255).

(** An image with a positive width and no rows. *)
Definition sampleImageFlat : ImageBitmap :=
  mkImage 5 0 (fun _ _ => transparentBlack).

(** A nearly transparent image: every pixel has alpha 2. *)
Definition sampleImageFaint : ImageBitmap :=
  mkImage 320 240 (fun _ _ => mkPixel 2 2 2 2).

Definition samplePlatform : Platform :=
  {| innerWidth := 1000;
     canvasRef := Some (mkRect 0 0);
     getContext2d := true;
     loadImage := fun src =>
       if String.eqb src "a" then Some sampleImageA
       else if String.eqb src "b" then Some sampleImageB
       else if String.eqb src "big" then Some sampleImageBig
       else if String.eqb src "flat" then Some sampleImageFlat
       else if String.eqb src "faint" then Some sampleImageFaint
       else None;
     rasterize := roundRasterizer |}.

Definition sampleProps (src : string) (size : Q) : Props :=
  {| imageSrc := src; brushSizeProp := size; onExportImageForAI := 0%nat |}.

(** Mount the component with [props] on the sample platform and feed it
    [evs]; the outputs are those of the events, without the mount's. *)
Definition sampleRun (props : Props) (evs : list Event)
    : option (Mounted * list Output) :=
  match mount samplePlatform props with
  | Some (m, _) => run samplePlatform m evs
  | None => None
  end.

(** As [sampleRun], then one more event; the outputs are those of that
    last event alone. *)
Definition sampleStepAfter (props : Props) (evs : list Event) (ev : Event)
    : option (Mounted * list Output) :=
  match sampleRun props evs with
  | Some (m, _) => step samplePlatform m ev
  | None => None
  end.

(** The state once the 320x240 sample image has loaded. *)
Definition sampleLoaded : State :=
  img_onload samplePlatform 320 240 initialState.

Definition strokeA : DrawPath :=
  {| points := [mkPoint 100 100]; brushSize := 40 |}.

Definition strokeB : DrawPath :=
  {| points := [mkPoint 200 100; mkPoint 220 120]; brushSize := 10 |}.

(** A click one pixel right of and above [strokeA]'s: the rims of both
    cross pixel (116, 111), the first covering about a third of it, the
    second about three fifths. *)
Definition strokeNear : DrawPath :=
  {| points := [mkPoint 101 99]; brushSize := 40 |}.

(** The two clicks as gestures on the nearly transparent image, in
    either order. *)
Definition clickA : list Event :=
  [EvPointerDown (MouseEvent 100 100); EvPointerUp].

Definition clickNear : list Event :=
  [EvPointerDown (MouseEvent 101 99); EvPointerUp].

Definition rimRunAB : option (Mounted * list Output) :=
  sampleRun (sampleProps "faint" 40) (EvImageLoad 320 240 :: clickA ++ clickNear).

Definition rimRunBA : option (Mounted * list Output) :=
  sampleRun (sampleProps "faint" 40) (EvImageLoad 320 240 :: clickNear ++ clickA).

(** A stroke outside the data model: brush size 0. *)
Definition strokeZero : DrawPath :=
  {| points := [mkPoint 200 100]; brushSize := 0 |}.

(** A gesture in progress on the loaded sample image. *)
Definition sampleDrawing : State :=
  setCurrentPath (fun _ => [mkPoint 100 100]) (setIsDrawing true sampleLoaded).

Definition strokesOf (r : option (Mounted * list Output)) : list DrawPath :=
  match r with
  | Some (m, _) => paths (m_state m)
  | None => []
  end.

Definition outputsOf (r : option (Mounted * list Output)) : list Output :=
  match r with
  | Some (_, out) => out
  | None => []
  end.

Definition Point_eqb (p q : Point) : bool :=
  Qeq_bool (x p) (x q) && Qeq_bool (y p) (y q).

Fixpoint Points_eqb (l1 l2 : list Point) : bool :=
  match l1, l2 with
  | [], [] => true
  | p :: l1', q :: l2' => Point_eqb p q && Points_eqb l1' l2'
  | _, _ => false
  end.

(** ** Further parts of the component

    The JSX of lines 233-240 sizes the canvas wrapper from the stored
    dimensions and the scale. *)



(** The body of the [paths.forEach] loop of [renderCanvas]. *)
Definition overlayStroke (pf : Platform) (ctx : Context2D) (path : DrawPath)
    : Context2D :=
  let ctx := beginPath ctx in
  let ctx := set_strokeStyle translucentRed ctx in
  let ctx := set_lineWidth (brushSize path) ctx in
  let ctx := tracePoints (points path) ctx in
  stroke pf ctx.

(** The strokes [renderCanvas] draws: the committed ones, then the one in
    progress at the current brush size. *)
Definition overlayStrokes (props : Props) (s : State) : list DrawPath :=
  paths s
  ++ (if (0 <? Z.of_nat (List.length (currentPath s)))
      then [ {| points := currentPath s; brushSize := brushSizeProp props |} ]
      else []).

(** The visible canvas of [renderCanvas] before the strokes are drawn. *)
Definition overlayBase (pf : Platform) (props : Props) (s : State) : Context2D :=
  let ctx := createCanvas (width (imageDimensions s))
                          (height (imageDimensions s)) in
  let img := loadImage pf (imageSrc props) in
  let ctx :=
    if complete img
    then drawImage img 0 0 (width (imageDimensions s))
                   (height (imageDimensions s)) ctx
    else ctx in
  set_lineJoin JoinRound (set_lineCap CapRound ctx).

(** A session: mount the component, then handle the events in order. *)
Definition session (pf : Platform) (props : Props) (evs : list Event)
    : option (Mounted * list Output) :=
  match mount pf props with
  | Some (m, out) =>
      match run pf m evs with
      | Some (m', out') => Some (m', out ++ out')
      | None => None
      end
  | None => None
  end.

Definition countExports (out : list Output) : nat :=
  List.length (filter (fun o => match o with Exported _ => true | _ => false end) out).

Definition countPaints (out : list Output) : nat :=
  List.length (filter (fun o => match o with Painted _ => true | _ => false end) out).

(** Events whose props carry a positive brush size. *)
Definition brushPositive (ev : Event) : Prop :=
  match ev with
  | EvProps p => (0 < brushSizeProp p)%Q
  | _ => True
  end.

(** The drawing state the overlay loop relies on. *)
Definition overlayReady (c : Context2D) : Prop :=
  globalCompositeOperation c = SourceOver
  /\ lineCap c = CapRound /\ lineJoin c = JoinRound.

(** The dependencies of the export effect that live in the state. *)
Definition sameExportCells (s s' : State) : Prop :=
  paths_id s' = paths_id s /\ imageDimensions_id s' = imageDimensions_id s.

(** ** App.tsx: the brush-size buttons (line 95) *)

Definition adjustBrushSize (delta prev : Q) : Q :=
  Qmax 5 (Qmin 150 (prev + delta)).

(** ** services/geminiService.ts ([src/unnamed/part_000]) *)

Open Scope string_scope.

(** JavaScript truthiness of a string that may be [undefined]. *)
Definition truthy (v : option string) : bool :=
  match v with
  | Some s => negb (String.eqb s "")
  | None => false
  end.

(** [a || b] on such values. *)
Definition js_or (a b : option string) : option string :=
  if truthy a then a else b.

Fixpoint stripPrefix (p s : string) : option string :=
  match p with
  | EmptyString => Some s
  | String a p' =>
      match s with
      | String b s' => if Ascii.eqb a b then stripPrefix p' s' else None
      | EmptyString => None
      end
  end.

(** [imageDataBase64.replace(/^data:image\/(png|jpeg|webp);base64,/, "")]:
    the pattern is anchored at the start, so at most the one matching
    prefix is removed. *)
Definition cleanBase64 (imageDataBase64 : string) : string :=
  match stripPrefix "data:image/png;base64," imageDataBase64 with
  | Some rest => rest
  | None =>
      match stripPrefix "data:image/jpeg;base64," imageDataBase64 with
      | Some rest => rest
      | None =>
          match stripPrefix "data:image/webp;base64," imageDataBase64 with
          | Some rest => rest
          | None => imageDataBase64
          end
      end
  end.

(** The response of the generation service, as far as the code reads it;
    every property may be absent. *)
Record Blob := mkBlob { blob_data : option string }.
Record Part := mkPart { inlineData : option Blob; text : option string }.
Record Content := mkContent { parts : option (list Part) }.
Record Candidate := mkCandidate { content : option Content }.
Record GenerateContentResponse := mkResponse {
  candidates : option (list Candidate)
}.

(** The request handed to [ai.models.generateContent]. *)
Record Request := mkRequest {
  req_model : string;
  req_data : string;
  req_mimeType : string;
  req_text : string
}.

(** The awaited call either rejects with an error, whose [message] may be
    missing, or resolves with a response. *)
Inductive ApiResult :=
| ApiRejected (message : option string)
| ApiResolved (response : GenerateContentResponse).

(** Where the API key may come from, and the message the engine gives to
    the [TypeError] of reading a property of [undefined]. *)
Record Runtime := mkRuntime {
  processEnvKey : option string;
  windowEnvKey : option string;
  typeErrorMessage : string -> string
}.

(** The promise returned by [generateFill]. *)
Inductive Outcome :=
| Resolved (url : string)
| Rejected (message : string).

(** The result of the [try] block: a value returned or an error thrown,
    with its [message] if it has one. *)
Inductive TryResult :=
| Returned (url : string)
| Threw (message : option string).

(** The [for] loop over [content.parts]: the data of the first part whose
    [inlineData.data] is truthy. *)
Fixpoint findInlineImage (ps : list Part) : option string :=
  match ps with
  | [] => None
  | part :: rest =>
      match inlineData part with
      | Some blob =>
          if truthy (blob_data blob) then blob_data blob
          else findInlineImage rest
      | None => findInlineImage rest
      end
  end.

(** A part that the loop passes over. *)
Definition noInlineImage (p : Part) : Prop :=
  match inlineData p with
  | Some b => truthy (blob_data b) = false
  | None => True
  end.

Definition promptText (prompt : string) : string :=
  "Edit this image. Fill the transparent/empty areas (or the area described) with: "
  ++ prompt
  ++ ". Ensure the lighting and perspective match the original image seamlessley.".

Definition buildRequest (imageDataBase64 prompt : string) : Request :=
  {| req_model := "gemini-2.5-flash-image";
     req_data := cleanBase64 imageDataBase64;
     req_mimeType := "image/png";
     req_text := promptText prompt |}.

(** The [try] block once the call has settled. *)
Definition readResponse (rt : Runtime) (res : ApiResult) : TryResult :=
  match res with
  | ApiRejected m => Threw m
  | ApiResolved response =>
      match candidates response with
      | None => Threw (Some "No response from AI.")
      | Some [] => Threw (Some "No response from AI.")
      | Some (first :: _) =>
          match content first with
          | None => Threw (Some (typeErrorMessage rt "parts"))
          | Some c =>
              let generatedImageBase64 :=
                match parts c with
                | Some ps => findInlineImage ps
                | None => None
                end in
              if truthy generatedImageBase64
              then
                match generatedImageBase64 with
                | Some d => Returned ("data:image/png;base64," ++ d)
                | None => Threw None
                end
              else
                match parts c with
                | None => Threw (Some (typeErrorMessage rt "find"))
                | Some ps =>
                    match find (fun p => truthy (text p)) ps with
                    | Some textPart =>
                        Threw (Some ("AI Response (Text only): "
                                     ++ match text textPart with
                                        | Some t => t
                                        | None => "undefined"
                                        end))
                    | None => Threw (Some "AI did not return an image.")
                    end
                end
          end
      end
  end.

(** [generateFill]: the requests sent, in order, and how the promise
    settles. *)
Definition generateFill (rt : Runtime) (api : Request -> ApiResult)
    (imageDataBase64 prompt : string) : list Request * Outcome :=
  let apiKey := js_or (processEnvKey rt) (windowEnvKey rt) in
  if negb (truthy apiKey)
  then ([], Rejected "API Key is missing. Please check your environment configuration.")
  else
    let request := buildRequest imageDataBase64 prompt in
    ([request],
     match readResponse rt (api request) with
     | Returned url => Resolved url
     | Threw m =>
         Rejected (if truthy m
                   then match m with Some s => s | None => "" end
                   else "Failed to generate image.")
     end).

Definition sampleRuntime : Runtime :=
  {| processEnvKey := None;
     windowEnvKey := Some "k";
     typeErrorMessage := fun name =>
       "Cannot read properties of undefined (reading '" ++ name ++ "')" |}.

Definition sampleApi (r : Request) : ApiResult :=
  ApiResolved
    (mkResponse
       (Some [mkCandidate
                (Some (mkContent
                         (Some [mkPart None (Some "here it is");
                                mkPart (Some (mkBlob (Some ""))) None;
                                mkPart (Some (mkBlob (Some "QUJD"))) None;
                                mkPart (Some (mkBlob (Some "REVG"))) None])))])).

Close Scope string_scope.

(** *** The globals read by lines 11-12

    [process] and [window] may be undeclared and [process.env] may be
    missing.  The first operand of [||] reads [process.env.API_KEY]
    without optional chaining, the second names [window] without a
    [typeof] guard, and both are evaluated outside the [try]. *)
Record EnvObject := mkEnv { API_KEY : option string }.

Record ProcessObject := mkProcess { env : option EnvObject }.

Record Globals := mkGlobals {
  (* [None]: [typeof process] is "undefined" *)
  processGlobal : option ProcessObject;
  (* [None]: there is no global [window]; [Some None]: [window.process]
     is [undefined] or [null] *)
  windowProcess : option (option ProcessObject)
}.

Inductive LookupError := LookupTypeError | LookupReferenceError.

(** [typeof process !== "undefined" ? process.env.API_KEY : undefined] *)
Definition processKey (g : Globals) : LookupError + option string :=
  match processGlobal g with
  | None => inr None
  | Some p =>
      match env p with
      | None => inl LookupTypeError
      | Some e => inr (API_KEY e)
      end
  end.

(** [(window as any).process?.env?.API_KEY] *)
Definition windowKey (g : Globals) : LookupError + option string :=
  match windowProcess g with
  | None => inl LookupReferenceError
  | Some None => inr None
  | Some (Some p) =>
      match env p with
      | None => inr None
      | Some e => inr (API_KEY e)
      end
  end.

(** The operands of [||] as far as they are evaluated: the second one
    only when the first is falsy. *)
Definition keySources (g : Globals)
    : LookupError + (option string * option string) :=
  match processKey g with
  | inl e => inl e
  | inr a =>
      if truthy a then inr (a, None)
      else match windowKey g with
           | inl e => inl e
           | inr b => inr (a, b)
           end
  end.

Definition readApiKey (g : Globals) : LookupError + option string :=
  match keySources g with
  | inl e => inl e
  | inr (a, b) => inr (js_or a b)
  end.

(** [generateFill] under these globals: an error thrown by the key
    lookup rejects the promise with that error before anything is sent;
    otherwise the call goes on with the values read. *)
Definition generateFillIn (g : Globals) (typeErrorMessage : string -> string)
    (api : Request -> ApiResult) (imageDataBase64 prompt : string)
    : list Request * (LookupError + Outcome) :=
  match keySources g with
  | inl e => ([], inl e)
  | inr (a, b) =>
      let r := generateFill (mkRuntime a b typeErrorMessage) api
                            imageDataBase64 prompt in
      (fst r, inr (snd r))
  end.

(** * Properties *)

(** ** Geometry *)

Open Scope Q_scope.

Lemma Qdiv_bound (a w : Q) : 0 < w -> w * (a / w) == a.
Proof. intros Hw. field. lra. Qed.

Lemma Math_min3_cases (a b c : Q) :
  let m := Math_min3 a b c in
  m <= a /\ m <= b /\ m <= c /\ (m == a \/ m == b \/ m == c).
Proof.
  unfold Math_min3.
  destruct (Q.min_spec a b) as [[L1 E1] | [L1 E1]];
  destruct (Q.min_spec (Qmin a b) c) as [[L2 E2] | [L2 E2]];
  repeat split; lra.
Qed.

(** The [onload] handler stores the native size and the scale computed
    from it and from the viewport bounds. *)
Lemma img_onload_scale (pf : Platform) (w h : Z) (s : State) :
  scale (img_onload pf w h s)
  = computeScale (inject_Z w) (inject_Z h)
                 (viewportMaxWidth (innerWidth pf)) viewportMaxHeight
  /\ imageDimensions (img_onload pf w h s) = mkDimensions w h.
Proof. split; reflexivity. Qed.

(** C3: for image sizes and bounds of at least 1, [computeScale] is
    [min(maxWidth/w, maxHeight/h, 1)]; it lies in (0, 1], the scaled image
    fits the bounds, an image already within the bounds keeps scale 1, and
    no larger value of (0, 1] fits. *)
Theorem computeScale_bound (w h maxWidth maxHeight : Q) :
  1 <= w -> 1 <= h -> 1 <= maxWidth -> 1 <= maxHeight ->
  let sc := computeScale w h maxWidth maxHeight in
  sc == Qmin (Qmin (maxWidth / w) (maxHeight / h)) 1
  /\ 0 < sc /\ sc <= 1
  /\ w * sc <= maxWidth /\ h * sc <= maxHeight
  /\ (w <= maxWidth -> h <= maxHeight -> sc == 1)
  /\ (forall t, 0 < t -> t <= 1 -> w * t <= maxWidth -> h * t <= maxHeight ->
                t <= sc).
Proof.
  intros Hw Hh HW HH sc.
  assert (Ea : w * (maxWidth / w) == maxWidth) by (apply Qdiv_bound; lra).
  assert (Eb : h * (maxHeight / h) == maxHeight) by (apply Qdiv_bound; lra).
  destruct (Math_min3_cases (maxWidth / w) (maxHeight / h) 1) as (La & Lb & L1 & Hc).
  fold (computeScale w h maxWidth maxHeight) in La, Lb, L1, Hc.
  fold sc in La, Lb, L1, Hc.
  set (a := maxWidth / w) in *. set (b := maxHeight / h) in *.
  assert (Ha : 0 < a) by nra.
  assert (Hb : 0 < b) by nra.
  split; [reflexivity|].
  split; [destruct Hc as [E | [E | E]]; lra|].
  split; [exact L1|].
  split; [nra|]. split; [nra|].
  split.
  - intros H1 H2. assert (1 <= a) by nra. assert (1 <= b) by nra.
    destruct Hc as [E | [E | E]]; lra.
  - intros t Ht0 Ht1 Htw Hth.
    assert (t <= a) by nra. assert (t <= b) by nra.
    destruct Hc as [E | [E | E]]; lra.
Qed.

(** A 1600x1200 image in an 800x600 viewport is shown at half size. *)
Lemma computeScale_bound_witness :
  0 < computeScale 1600 1200 800 600 /\ computeScale 1600 1200 800 600 <= 1
  /\ 1600 * computeScale 1600 1200 800 600 <= 800
  /\ 1200 * computeScale 1600 1200 800 600 <= 600.
Proof.
  destruct (computeScale_bound 1600 1200 800 600) as (_ & A & B & C & D & _);
    try (unfold Qle; simpl; lia).
  repeat split; assumption.
Defined.

(** C7: a point sent to display space (multiply by the scale, add the
    canvas origin) and read back by [getCoordinates] is the same point,
    for every positive scale; at scale 1/2 the pointer positions (0,0) and
    (100,0) are the image points (0,0) and (200,0). *)
Theorem coordinate_round_trip (p : Point) (rect : DOMRect) (s : Q) :
  0 < s ->
  let d := toDisplaySpace p (left rect) (top rect) s in
  Point_eq (toImageSpace (x d) (y d) (left rect) (top rect) s) p
  /\ (exists q, getCoordinates (Some rect) s (MouseEvent (x d) (y d))
                = Normal (Some q) /\ Point_eq q p)
  /\ (exists q, getCoordinates (Some rect) s
                  (TouchEvent [mkTouch (x d) (y d)])
                = Normal (Some q) /\ Point_eq q p)
  /\ computeScale 1600 1200 800 600 == 1 # 2
  /\ Point_eq (toImageSpace 0 0 0 0 (1 # 2)) (mkPoint 0 0)
  /\ Point_eq (toImageSpace 100 0 0 0 (1 # 2)) (mkPoint 200 0).
Proof.
  intros Hs d.
  assert (R : Point_eq (toImageSpace (x d) (y d) (left rect) (top rect) s) p).
  { unfold Point_eq, toImageSpace, d, toDisplaySpace; simpl. split; field; lra. }
  split; [exact R|].
  split; [eexists; split; [reflexivity | exact R]|].
  split; [eexists; split; [reflexivity | exact R]|].
  split; [reflexivity|].
  split; split; reflexivity.
Qed.

Lemma coordinate_round_trip_witness :
  Point_eq (toImageSpace (x (toDisplaySpace (mkPoint 200 30) 8 16 (1 # 2)))
                         (y (toDisplaySpace (mkPoint 200 30) 8 16 (1 # 2)))
                         8 16 (1 # 2))
           (mkPoint 200 30).
Proof.
  apply (coordinate_round_trip (mkPoint 200 30) (mkRect 8 16) (1 # 2)).
  reflexivity.
Defined.

(** The drag of the scenario, through the handlers: on a 1600x1200 image
    the pointer positions (0,0) and (100,0) are recorded as (0,0) and
    (200,0). *)
Example drag_at_half_scale :
  match sampleRun (sampleProps "big" 40)
          [EvImageLoad 1600 1200; EvPointerDown (MouseEvent 0 0);
           EvPointerMove (MouseEvent 100 0)] with
  | Some (m, _) =>
      Qeq_bool (scale (m_state m)) (1 # 2)
      && Points_eqb (currentPath (m_state m)) [mkPoint 0 0; mkPoint 200 0]
  | None => false
  end = true.
Proof. vm_compute. reflexivity. Qed.

(** C10: on a mounted canvas, [getCoordinates] applied to a touch event
    throws exactly when the event's [touches] list is empty, and returns a
    point exactly when it is not. *)
Theorem getCoordinates_touch_precondition (rect : DOMRect) (sc : Q)
    (ts : list Touch) :
  (getCoordinates (Some rect) sc (TouchEvent ts) = Throw TypeError <-> ts = [])
  /\ ((exists p, getCoordinates (Some rect) sc (TouchEvent ts) = Normal (Some p))
      <-> ts <> []).
Proof.
  destruct ts as [|t ts]; cbn [getCoordinates nth_error]; split; split;
    try congruence; try discriminate.
  - intros [p E]. discriminate.
  - intros _. eexists. reflexivity.
Qed.

(** A touch event without touches aborts [startDrawing] and [draw]: the
    state is left as it was. *)
Lemma empty_touch_aborts_handlers (pf : Platform) (rect : DOMRect) (s : State) :
  canvasRef pf = Some rect ->
  startDrawing pf s (TouchEvent []) = Throw TypeError
  /\ (isDrawing s = true -> draw pf s (TouchEvent []) = Throw TypeError).
Proof.
  intros E. unfold startDrawing, draw. rewrite E. split; [reflexivity|].
  intros D. rewrite D. reflexivity.
Qed.

(** ** Stroke recorder *)

Open Scope Z_scope.

Lemma js_slice_drop_last {A : Type} (l : list A) (a : A) :
  js_slice (l ++ [a]) 0 (-1) = l.
Proof.
  unfold js_slice. rewrite length_app. simpl.
  replace (Z.min 0 _) with 0 by lia.
  replace (Z.max _ 0 - 0) with (Z.of_nat (List.length l)) by lia.
  rewrite Nat2Z.id. simpl.
  rewrite firstn_app, firstn_all, Nat.sub_diag. simpl. apply app_nil_r.
Qed.

(** C4: undo after appending a stroke gives back the history; undo of an
    empty history is empty, undo of a one-stroke history is empty; undo
    leaves the gesture in progress alone. *)
Theorem undo_inverse (s : State) (stroke1 : DrawPath) :
  paths (handleUndo (setPaths (fun prev => prev ++ [stroke1]) s)) = paths s
  /\ paths (handleUndo (setPaths (fun _ => []) s)) = []
  /\ paths (handleUndo (setPaths (fun _ => [stroke1]) s)) = []
  /\ currentPath (handleUndo s) = currentPath s
  /\ isDrawing (handleUndo s) = isDrawing s.
Proof.
  unfold handleUndo, setPaths; cbn [paths currentPath isDrawing].
  rewrite js_slice_drop_last.
  repeat split; reflexivity.
Qed.

(** Undo after a committed gesture restores the history before it. *)
Lemma undo_after_gesture (props : Props) (s : State) :
  paths (handleUndo (stopDrawing props s)) = paths s
  \/ paths (stopDrawing props s) = paths s.
Proof.
  unfold stopDrawing.
  destruct (isDrawing s && (0 <? Z.of_nat (List.length (currentPath s)))).
  - left. unfold handleUndo, setPaths, setCurrentPath, setIsDrawing;
      cbn [paths]. apply js_slice_drop_last.
  - right. reflexivity.
Qed.

(** ** The render cycle *)

Lemma Nat_eqb_succ (n : nat) : Nat.eqb n (S n) = false.
Proof. apply Nat.eqb_neq. lia. Qed.

Lemma needsRender_refl (s : State) : needsRender s s = false.
Proof. unfold needsRender. rewrite !Nat.eqb_refl. reflexivity. Qed.

Lemma loadEffect_same_src (p0 props : Props) (s0 s : State) :
  imageSrc p0 = imageSrc props ->
  loadEffect (Some (p0, s0)) props s = (s, []).
Proof.
  intros E. unfold loadEffect, imageSrc_changed. rewrite E, String.eqb_refl.
  reflexivity.
Qed.

(** A commit whose image source did not change settles at once. *)
Lemma flush_same_src (k : nat) (pf : Platform) (p0 props : Props) (s0 s : State) :
  imageSrc p0 = imageSrc props ->
  flush (S k) pf (Some (p0, s0)) props s
  = Some (s, renderEffect pf (Some (p0, s0)) props s
             ++ exportEffect pf (Some (p0, s0)) props s).
Proof.
  intros E. simpl. unfold commitEffects.
  rewrite (loadEffect_same_src _ _ _ _ E), needsRender_refl. reflexivity.
Qed.

Lemma flush_unfold (k : nat) (pf : Platform) (prev : Closure) (props : Props) (s : State) :
  flush (S k) pf prev props s
  = let '(s', out) := commitEffects pf prev props s in
    if needsRender s s'
    then match flush k pf (Some (props, s)) props s' with
         | Some (s'', out') => Some (s'', out ++ out')
         | None => None
         end
    else Some (s', out).
Proof. reflexivity. Qed.

(** Two commits always suffice: more fuel changes nothing. *)
Lemma flush_stable (n : nat) (pf : Platform) (prev : Closure) (props : Props) (s : State) :
  flush (2 + n) pf prev props s = flush 2 pf prev props s.
Proof.
  change (2 + n)%nat with (S (S n)).
  rewrite (flush_unfold (S n)), (flush_unfold 1).
  destruct (commitEffects pf prev props s) as [s' out].
  destruct (needsRender s s'); [|reflexivity].
  rewrite (flush_same_src n), (flush_same_src 0); reflexivity.
Qed.

Lemma settle_eq (pf : Platform) (prev : Closure) (props : Props) (s : State) :
  settle pf prev props s
  = Some (let '(s', out) := commitEffects pf prev props s in
          if needsRender s s'
          then (s', out ++ renderEffect pf (Some (props, s)) props s'
                        ++ exportEffect pf (Some (props, s)) props s')
          else (s', out)).
Proof.
  unfold settle. rewrite flush_unfold.
  destruct (commitEffects pf prev props s) as [s' out].
  destruct (needsRender s s'); [|reflexivity].
  rewrite (flush_same_src 0) by reflexivity. reflexivity.
Qed.

Lemma step_eq (pf : Platform) (m : Mounted) (ev : Event) :
  step pf m ev
  = Some (let '(props', s') := handle pf m ev in
          let '(s'', out) := commitEffects pf (Some (m_props m, m_state m)) props' s' in
          if needsRender s' s''
          then (mkMounted props' s'',
                out ++ renderEffect pf (Some (props', s')) props' s''
                    ++ exportEffect pf (Some (props', s')) props' s'')
          else (mkMounted props' s'', out)).
Proof.
  unfold step. destruct (handle pf m ev) as [props' s'].
  rewrite settle_eq.
  destruct (commitEffects pf _ props' s') as [s'' out].
  destruct (needsRender s' s''); reflexivity.
Qed.

Lemma loadEffect_ids (s : State) :
  let s' := setCurrentPath (fun _ => []) (setPaths (fun _ => []) s) in
  paths_id s' = S (paths_id s) /\ needsRender s s' = true
  /\ paths s' = [] /\ currentPath s' = []
  /\ imageDimensions s' = imageDimensions s.
Proof.
  unfold needsRender, setCurrentPath, setPaths; cbn.
  rewrite Nat_eqb_succ. repeat split; reflexivity.
Qed.

Lemma renderEffect_paths (pf : Platform) (p0 props : Props) (s0 s : State) :
  paths_id s = S (paths_id s0) ->
  renderEffect pf (Some (p0, s0)) props s = [Painted (renderCanvas pf props s)].
Proof.
  intros E. unfold renderEffect, paths_changed. rewrite E, Nat_eqb_succ.
  cbn [negb]. rewrite orb_true_r. reflexivity.
Qed.

Lemma exportEffect_paths (pf : Platform) (p0 props : Props) (s0 s : State) :
  paths_id s = S (paths_id s0) ->
  exportEffect pf (Some (p0, s0)) props s
  = if 0 <? width (imageDimensions s)
    then [Exported (generateMaskedImage pf props s)] else [].
Proof.
  intros E. unfold exportEffect, paths_changed. rewrite E, Nat_eqb_succ.
  reflexivity.
Qed.

(** Every event is handled to completion: the cycle never runs out of
    fuel. *)
Lemma step_total (pf : Platform) (m : Mounted) (ev : Event) :
  exists m' out, step pf m ev = Some (m', out).
Proof.
  rewrite step_eq. destruct (handle pf m ev) as [props' s'].
  destruct (commitEffects pf _ props' s') as [s'' out].
  destruct (needsRender s' s''); eexists; eexists; reflexivity.
Qed.

Lemma run_total (pf : Platform) (evs : list Event) : forall m,
  exists m' out, run pf m evs = Some (m', out).
Proof.
  induction evs as [|ev rest IH]; intros m; cbn [run].
  - eexists; eexists; reflexivity.
  - destruct (step_total pf m ev) as (m1 & o1 & E1). rewrite E1.
    destruct (IH m1) as (m2 & o2 & E2). rewrite E2.
    eexists; eexists; reflexivity.
Qed.

(** The clear button on a non-empty history of a loaded image: one commit,
    a repaint and an export of the state with the history emptied. *)
Lemma clear_step (pf : Platform) (props : Props) (s : State) :
  paths s <> [] ->
  0 < width (imageDimensions s) ->
  step pf (mkMounted props s) EvClear
  = Some (mkMounted props (handleClear s),
          [Painted (renderCanvas pf props (handleClear s));
           Exported (generateMaskedImage pf props (handleClear s))]).
Proof.
  intros N W. rewrite step_eq. cbn [handle m_props m_state].
  assert (L : Nat.eqb (List.length (paths s)) 0 = false).
  { destruct (paths s); [congruence | reflexivity]. }
  rewrite L. unfold commitEffects.
  rewrite (loadEffect_same_src props props s (handleClear s) eq_refl).
  rewrite needsRender_refl.
  rewrite (renderEffect_paths pf props props s (handleClear s) eq_refl).
  rewrite (exportEffect_paths pf props props s (handleClear s) eq_refl).
  change (imageDimensions (handleClear s)) with (imageDimensions s).
  replace (0 <? width (imageDimensions s)) with true by lia.
  reflexivity.
Qed.

(** ** The mask compositor *)

Lemma Pixel_eta (p : Pixel) : mkPixel (red p) (green p) (blue p) (alpha p) = p.
Proof. destruct p; reflexivity. Qed.

Lemma composite_over_transparent (s : Pixel) :
  composite SourceOver s transparentBlack = s.
Proof.
  unfold composite, scaleChannel. cbn [red green blue alpha transparentBlack].
  rewrite Z.mul_0_l. change ((0 + 127) / 255) with 0.
  rewrite !Z.add_0_r. apply Pixel_eta.
Qed.

Lemma composite_out_opaque (s d : Pixel) :
  alpha s = 255 -> composite DestinationOut s d = transparentBlack.
Proof.
  intros E. unfold composite, scaleChannel. rewrite E.
  change (255 - 255) with 0. rewrite !Z.mul_0_r. reflexivity.
Qed.

Lemma composite_out_alpha0 (s d : Pixel) :
  alpha d = 0 -> alpha (composite DestinationOut s d) = 0.
Proof.
  intros E. unfold composite, scaleChannel. cbn [alpha].
  rewrite E, Z.mul_0_l. reflexivity.
Qed.

(** Path construction. *)
Lemma lineTo_fold (l : list Point) : forall (c : Context2D) (s : list Point),
  subpaths c = [s] ->
  fold_left (fun c p => lineTo p c) l c = set_subpaths [s ++ l] c.
Proof.
  induction l as [|p l IH]; intros c s E; simpl.
  - rewrite app_nil_r. rewrite <- E. destruct c; reflexivity.
  - rewrite (IH (lineTo p c) (s ++ [p])).
    + unfold lineTo. rewrite E. simpl. rewrite <- app_assoc. reflexivity.
    + unfold lineTo. rewrite E. reflexivity.
Qed.

Lemma tracePoints_begin (pts : list Point) (c : Context2D) :
  tracePoints pts (beginPath c) = set_subpaths (tracedSubpaths pts) c.
Proof.
  destruct pts as [|p0 rest].
  - reflexivity.
  - unfold tracePoints.
    rewrite (lineTo_fold (p0 :: rest) (moveTo p0 (beginPath c)) [p0]); reflexivity.
Qed.

Lemma eraseStroke_eq (pf : Platform) (c : Context2D) (path : DrawPath) :
  eraseStroke pf c path
  = stroke pf (set_subpaths (tracedSubpaths (points path))
                            (set_lineWidth (brushSize path) c)).
Proof.
  unfold eraseStroke.
  assert (E : set_lineWidth (brushSize path) (beginPath c)
              = beginPath (set_lineWidth (brushSize path) c)).
  { unfold set_lineWidth. destruct (Qlt_le_dec 0 (brushSize path)); reflexivity. }
  rewrite E, tracePoints_begin. reflexivity.
Qed.

Lemma set_lineWidth_fields (v : Q) (c : Context2D) :
  let c' := set_lineWidth v c in
  canvas_width c' = canvas_width c /\ canvas_height c' = canvas_height c
  /\ bitmap c' = bitmap c
  /\ globalCompositeOperation c' = globalCompositeOperation c
  /\ lineCap c' = lineCap c /\ lineJoin c' = lineJoin c
  /\ strokeStyle c' = strokeStyle c.
Proof.
  unfold set_lineWidth. destruct (Qlt_le_dec 0 v); simpl; repeat split; reflexivity.
Qed.

Lemma eraseStroke_fields (pf : Platform) (c : Context2D) (path : DrawPath) :
  let c' := eraseStroke pf c path in
  canvas_width c' = canvas_width c /\ canvas_height c' = canvas_height c
  /\ globalCompositeOperation c' = globalCompositeOperation c
  /\ lineCap c' = lineCap c /\ lineJoin c' = lineJoin c
  /\ strokeStyle c' = strokeStyle c.
Proof.
  rewrite eraseStroke_eq. simpl.
  destruct (set_lineWidth_fields (brushSize path) c) as (A & B & _ & D & E & F & G).
  repeat split; assumption.
Qed.

Lemma eraseStroke_ready (pf : Platform) (c : Context2D) (path : DrawPath) :
  eraseReady c -> eraseReady (eraseStroke pf c path).
Proof.
  unfold eraseReady.
  destruct (eraseStroke_fields pf c path) as (_ & _ & D & E & F & G).
  rewrite D, E, F, G. tauto.
Qed.

Lemma inCanvas_ext (c c' : Context2D) (i j : Z) :
  canvas_width c' = canvas_width c -> canvas_height c' = canvas_height c ->
  inCanvas c' i j = inCanvas c i j.
Proof. intros A B. unfold inCanvas. rewrite A, B. reflexivity. Qed.

Lemma inCanvas_inRaster (c : Context2D) (i j : Z) :
  inCanvas c i j = inRaster (canvas_width c) (canvas_height c) i j.
Proof. reflexivity. Qed.

Lemma clampCoverage_range (v : Z) : 0 <= clampCoverage v <= 255.
Proof. unfold clampCoverage. lia. Qed.

Lemma coverPixel_alpha (cov : Z) (p : Pixel) :
  alpha p = 255 -> alpha (coverPixel cov p) = cov.
Proof.
  intros E. unfold coverPixel, scaleChannel. cbn [alpha].
  rewrite E, Z.mul_comm, Z.div_add_l by lia. change (127 / 255) with 0. lia.
Qed.

Lemma composite_out_transparent (s : Pixel) :
  composite DestinationOut s transparentBlack = transparentBlack.
Proof. reflexivity. Qed.

Lemma scaleChannel_bounds (c k : Z) :
  0 <= c -> 0 <= k <= 255 -> 0 <= scaleChannel c k <= c.
Proof.
  intros C K. unfold scaleChannel. split.
  - apply Z.div_pos; nia.
  - apply Z.lt_succ_r, Z.div_lt_upper_bound; nia.
Qed.

Lemma eraseStroke_bitmap (pf : Platform) (c : Context2D) (path : DrawPath) (i j : Z) :
  bitmap (eraseStroke pf c path) i j
  = let cov :=
      clampCoverage
        (rasterize pf (lineCap c) (lineJoin c)
           (lineWidth (set_lineWidth (brushSize path) c))
           (tracedSubpaths (points path)) i j) in
    if inCanvas c i j && (0 <? cov)
    then composite (globalCompositeOperation c)
                   (coverPixel cov (strokeStyle c)) (bitmap c i j)
    else bitmap c i j.
Proof.
  rewrite eraseStroke_eq.
  destruct (set_lineWidth_fields (brushSize path) c) as (A & B & C & D & E & F & G).
  unfold stroke. simpl. unfold inCanvas. simpl.
  rewrite A, B, C, D, E, F, G. reflexivity.
Qed.

Lemma set_lineWidth_positive (v : Q) (c : Context2D) :
  (0 < v)%Q -> lineWidth (set_lineWidth v c) = v.
Proof.
  intros H. unfold set_lineWidth. destruct (Qlt_le_dec 0 v) as [_|L]; [reflexivity|].
  exfalso. apply (Qlt_not_le _ _ H L).
Qed.

(** One stroke of the erase loop, pixel by pixel. *)
Lemma eraseStroke_pixel (pf : Platform) (c : Context2D) (path : DrawPath) (i j : Z) :
  eraseReady c -> (0 < brushSize path)%Q ->
  bitmap (eraseStroke pf c path) i j
  = if inCanvas c i j && (0 <? coverage pf path i j)
    then composite DestinationOut
           (coverPixel (coverage pf path i j) (strokeStyle c)) (bitmap c i j)
    else bitmap c i j.
Proof.
  intros (Rg & Rc & Rj & _) Hp.
  rewrite eraseStroke_bitmap, (set_lineWidth_positive _ _ Hp), Rg, Rc, Rj.
  reflexivity.
Qed.

Lemma erase_fold_fields (pf : Platform) (S0 : list DrawPath) : forall c,
  let c' := fold_left (eraseStroke pf) S0 c in
  canvas_width c' = canvas_width c /\ canvas_height c' = canvas_height c.
Proof.
  induction S0 as [|p S0 IH]; intros c; cbn [fold_left]; cbv zeta.
  - split; reflexivity.
  - destruct (IH (eraseStroke pf c p)) as (A & B).
    destruct (eraseStroke_fields pf c p) as (A' & B' & _).
    cbv zeta in A, B, A', B'. rewrite A, B, A', B'. split; reflexivity.
Qed.

Lemma erase_fold_ready (pf : Platform) (S0 : list DrawPath) : forall c,
  eraseReady c -> eraseReady (fold_left (eraseStroke pf) S0 c).
Proof.
  induction S0 as [|p S0 IH]; intros c R; simpl; [exact R|].
  apply IH, eraseStroke_ready, R.
Qed.

(** An erased pixel stays erased, channel by channel. *)
Lemma erase_fold_transparent (pf : Platform) (S0 : list DrawPath) : forall c i j,
  globalCompositeOperation c = DestinationOut ->
  bitmap c i j = transparentBlack ->
  bitmap (fold_left (eraseStroke pf) S0 c) i j = transparentBlack.
Proof.
  induction S0 as [|p S0 IH]; intros c i j G T; cbn [fold_left]; [exact T|].
  apply IH.
  - destruct (eraseStroke_fields pf c p) as (_ & _ & D & _). rewrite D. exact G.
  - rewrite eraseStroke_bitmap, G, T. cbv zeta.
    destruct (_ && _); reflexivity.
Qed.

(** A pixel that lies wholly inside one stroke of the history is erased
    to transparent black, whatever the other strokes do to it. *)
Lemma erase_fold_full (pf : Platform) (S0 : list DrawPath) : forall c i j,
  eraseReady c ->
  Forall (fun p => (0 < brushSize p)%Q) S0 ->
  inCanvas c i j = true ->
  Exists (fullyCovers pf i j) S0 ->
  bitmap (fold_left (eraseStroke pf) S0 c) i j = transparentBlack.
Proof.
  induction S0 as [|p S0 IH]; intros c i j R F I E; cbn [fold_left].
  - inversion E.
  - inversion F as [|? ? Hp F']; subst.
    destruct (eraseStroke_fields pf c p) as (A & B & D & _).
    inversion E as [? ? Hc|? ? E']; subst.
    + apply erase_fold_transparent.
      * rewrite D. apply R.
      * rewrite (eraseStroke_pixel pf c p i j R Hp), I.
        unfold fullyCovers in Hc. rewrite Hc. cbn [Z.ltb Z.compare andb].
        apply composite_out_opaque, coverPixel_alpha, R.
    + apply IH; [apply eraseStroke_ready, R | exact F' | | exact E'].
      rewrite (inCanvas_ext c _ i j A B). exact I.
Qed.

(** A pixel that every stroke of the history misses is left alone. *)
Lemma erase_fold_missed (pf : Platform) (S0 : list DrawPath) : forall c i j,
  eraseReady c ->
  Forall (fun p => (0 < brushSize p)%Q) S0 ->
  Forall (misses pf i j) S0 ->
  bitmap (fold_left (eraseStroke pf) S0 c) i j = bitmap c i j.
Proof.
  induction S0 as [|p S0 IH]; intros c i j R F M; cbn [fold_left]; [reflexivity|].
  inversion F as [|? ? Hp F']; subst. inversion M as [|? ? Mp M']; subst.
  rewrite (IH _ i j (eraseStroke_ready pf c p R) F' M').
  rewrite (eraseStroke_pixel pf c p i j R Hp).
  unfold misses in Mp. rewrite Mp, andb_false_r. reflexivity.
Qed.

(** The mask after erasing a whole history, at a pixel that each stroke
    either misses or contains. *)
Lemma erase_fold_bitmap (pf : Platform) (S0 : list DrawPath) : forall c i j,
  eraseReady c ->
  Forall (fun p => (0 < brushSize p)%Q) S0 ->
  Forall (fun p => misses pf i j p \/ fullyCovers pf i j p) S0 ->
  bitmap (fold_left (eraseStroke pf) S0 c) i j
  = if inCanvas c i j && existsb (fun p => coverage pf p i j =? 255) S0
    then transparentBlack else bitmap c i j.
Proof.
  induction S0 as [|p S0 IH]; intros c i j R F M; cbn [fold_left existsb].
  - rewrite andb_false_r. reflexivity.
  - inversion F as [|? ? Hp F']; subst. inversion M as [|? ? Mp M']; subst.
    rewrite (IH _ i j (eraseStroke_ready pf c p R) F' M').
    destruct (eraseStroke_fields pf c p) as (A & B & _).
    rewrite (inCanvas_ext c _ i j A B).
    rewrite (eraseStroke_pixel pf c p i j R Hp).
    destruct Mp as [Mp|Mp]; [unfold misses in Mp|unfold fullyCovers in Mp]; rewrite Mp.
    + rewrite andb_false_r. reflexivity.
    + rewrite (composite_out_opaque _ _ (coverPixel_alpha 255 _ (proj2 (proj2 (proj2 R))))).
      destruct (inCanvas c i j), (existsb _ S0); reflexivity.
Qed.

(** Erasing never raises the alpha of a pixel. *)
Lemma eraseStroke_alpha_le (pf : Platform) (c : Context2D) (path : DrawPath) (i j : Z) :
  eraseReady c ->
  0 <= alpha (bitmap c i j) ->
  0 <= alpha (bitmap (eraseStroke pf c path) i j) <= alpha (bitmap c i j).
Proof.
  intros (Rg & _ & _ & Ra) H. rewrite eraseStroke_bitmap, Rg. cbv zeta.
  destruct (_ && _); [|lia].
  unfold composite. cbn [alpha]. rewrite (coverPixel_alpha _ _ Ra).
  apply scaleChannel_bounds; [exact H|].
  pose proof (clampCoverage_range
                (rasterize pf (lineCap c) (lineJoin c)
                   (lineWidth (set_lineWidth (brushSize path) c))
                   (tracedSubpaths (points path)) i j)).
  lia.
Qed.

Lemma erase_fold_alpha_le (pf : Platform) (S0 : list DrawPath) : forall c i j,
  eraseReady c ->
  0 <= alpha (bitmap c i j) ->
  0 <= alpha (bitmap (fold_left (eraseStroke pf) S0 c) i j) <= alpha (bitmap c i j).
Proof.
  induction S0 as [|p S0 IH]; intros c i j R H; cbn [fold_left]; [lia|].
  pose proof (eraseStroke_alpha_le pf c p i j R H) as H1.
  pose proof (IH _ i j (eraseStroke_ready pf c p R) (proj1 H1)) as H2.
  lia.
Qed.

Lemma existsb_Permutation {A} (f : A -> bool) (l l' : list A) :
  Permutation l l' -> existsb f l = existsb f l'.
Proof.
  induction 1 as [|a l l' P IH|a b l|l1 l2 l3 P1 IH1 P2 IH2];
    simpl; try congruence.
  destruct (f a), (f b); reflexivity.
Qed.

Lemma maskCanvas_eq (pf : Platform) (props : Props) (s : State) :
  maskCanvas pf props s
  = set_globalCompositeOperation SourceOver
      (fold_left (eraseStroke pf) (paths s) (maskBase pf props s)).
Proof. reflexivity. Qed.

Lemma drawImage_fields (img : HTMLImageElement) (dx dy dw dh : Z) (c : Context2D) :
  canvas_width (drawImage img dx dy dw dh c) = canvas_width c
  /\ canvas_height (drawImage img dx dy dw dh c) = canvas_height c
  /\ strokeStyle (drawImage img dx dy dw dh c) = strokeStyle c.
Proof.
  unfold drawImage. destruct img as [bm|]; [|repeat split; reflexivity].
  destruct (_ || _); repeat split; reflexivity.
Qed.

Lemma maskBase_ready (pf : Platform) (props : Props) (s : State) :
  eraseReady (maskBase pf props s).
Proof.
  unfold eraseReady, maskBase; simpl.
  destruct (drawImage_fields (loadImage pf (imageSrc props)) 0 0
              (width (imageDimensions s)) (height (imageDimensions s))
              (createCanvas (width (imageDimensions s))
                            (height (imageDimensions s)))) as (_ & _ & E).
  rewrite E. repeat split; reflexivity.
Qed.

Lemma maskBase_size (pf : Platform) (props : Props) (s : State) :
  canvas_width (maskBase pf props s) = width (imageDimensions s)
  /\ canvas_height (maskBase pf props s) = height (imageDimensions s).
Proof.
  unfold maskBase; simpl.
  destruct (drawImage_fields (loadImage pf (imageSrc props)) 0 0
              (width (imageDimensions s)) (height (imageDimensions s))
              (createCanvas (width (imageDimensions s))
                            (height (imageDimensions s)))) as (A & B & _).
  rewrite A, B. split; reflexivity.
Qed.

Lemma maskCanvas_size (pf : Platform) (props : Props) (s : State) :
  canvas_width (maskCanvas pf props s) = width (imageDimensions s)
  /\ canvas_height (maskCanvas pf props s) = height (imageDimensions s).
Proof.
  rewrite maskCanvas_eq. simpl.
  destruct (erase_fold_fields pf (paths s) (maskBase pf props s)) as (A & B).
  destruct (maskBase_size pf props s) as (A' & B').
  cbv zeta in A, B. rewrite A, B, A', B'. split; reflexivity.
Qed.

Lemma generateMaskedImage_pixel (pf : Platform) (props : Props) (s : State) (i j : Z) :
  getContext2d pf = true ->
  pixelOf (generateMaskedImage pf props s) i j
  = if inRaster (width (imageDimensions s)) (height (imageDimensions s)) i j
    then Some (bitmap (fold_left (eraseStroke pf) (paths s) (maskBase pf props s)) i j)
    else None.
Proof.
  intros G. unfold generateMaskedImage. rewrite G. simpl negb. cbv iota.
  unfold toDataURL.
  destruct (maskCanvas_size pf props s) as (A & B). rewrite A, B.
  unfold inRaster. simpl pixelOf.
  destruct (width (imageDimensions s) <=? 0) eqn:Ew;
    destruct (height (imageDimensions s) <=? 0) eqn:Eh; simpl;
    try reflexivity;
    destruct (0 <=? i) eqn:E1; destruct (i <? width (imageDimensions s)) eqn:E2;
    destruct (0 <=? j) eqn:E3; destruct (j <? height (imageDimensions s)) eqn:E4;
    simpl; try reflexivity; lia.
Qed.

Lemma maskBase_bitmap_native (pf : Platform) (props : Props) (s : State)
    (bm : ImageBitmap) (i j : Z) :
  loadImage pf (imageSrc props) = Some bm ->
  0 < naturalWidth bm -> 0 < naturalHeight bm ->
  imageDimensions s = mkDimensions (naturalWidth bm) (naturalHeight bm) ->
  inRaster (naturalWidth bm) (naturalHeight bm) i j = true ->
  bitmap (maskBase pf props s) i j = sample bm i j.
Proof.
  intros L Hw Hh D I. unfold maskBase. rewrite L, D. simpl.
  replace (naturalWidth bm <=? 0) with false by lia.
  replace (naturalHeight bm <=? 0) with false by lia.
  simpl. unfold inCanvas. simpl. unfold inRaster in I.
  rewrite I. simpl.
  destruct (0 <=? i) eqn:E1; [|simpl in I; discriminate].
  destruct (i <? naturalWidth bm) eqn:E2; [|simpl in I; discriminate].
  destruct (0 <=? j) eqn:E3; [|simpl in I; discriminate].
  destruct (j <? naturalHeight bm) eqn:E4; [|simpl in I; discriminate].
  simpl. rewrite !Z.sub_0_r.
  rewrite !Z.div_mul by lia.
  apply composite_over_transparent.
Qed.

(** C1: when the compositor has its context and the decoded image, and
    the stored dimensions are the image's native ones, the export for an
    empty history is the source raster, pixel for pixel and of the same
    extent; so is the export after [handleClear], which the clear button
    triggers. *)
Theorem empty_mask_is_source (pf : Platform) (props : Props) (s : State)
    (bm : ImageBitmap) :
  getContext2d pf = true ->
  loadImage pf (imageSrc props) = Some bm ->
  0 < naturalWidth bm -> 0 < naturalHeight bm ->
  imageDimensions s = mkDimensions (naturalWidth bm) (naturalHeight bm) ->
  (paths s = [] ->
   forall i j, pixelOf (generateMaskedImage pf props s) i j = imagePixel bm i j)
  /\ (forall i j,
        pixelOf (generateMaskedImage pf props (handleClear s)) i j = imagePixel bm i j)
  /\ (paths s <> [] ->
      exists painted,
        step pf (mkMounted props s) EvClear
        = Some (mkMounted props (handleClear s),
                [painted; Exported (generateMaskedImage pf props (handleClear s))])).
Proof.
  intros G L Hw Hh D.
  assert (K : forall s', imageDimensions s' = imageDimensions s -> paths s' = [] ->
            forall i j, pixelOf (generateMaskedImage pf props s') i j = imagePixel bm i j).
  { intros s' D' P i j.
    rewrite (generateMaskedImage_pixel pf props s' i j G), P, D', D. simpl.
    unfold imagePixel. fold (inRaster (naturalWidth bm) (naturalHeight bm) i j).
    destruct (inRaster _ _ i j) eqn:I; [|reflexivity].
    f_equal. apply maskBase_bitmap_native; try assumption. rewrite D'. exact D. }
  split; [|split].
  - intros P. apply K; [reflexivity | exact P].
  - apply K; reflexivity.
  - intros N. eexists. apply clear_step; [exact N|].
    rewrite D. exact Hw.
Qed.

Lemma eraseStroke_alpha0 (pf : Platform) (c : Context2D) (path : DrawPath) (i j : Z) :
  globalCompositeOperation c = DestinationOut ->
  alpha (bitmap c i j) = 0 ->
  alpha (bitmap (eraseStroke pf c path) i j) = 0.
Proof.
  intros G A. rewrite eraseStroke_bitmap, G. cbv zeta.
  destruct (_ && _); [apply composite_out_alpha0|]; exact A.
Qed.

(** C5: a pixel that is fully transparent in the export of a history is
    fully transparent in the export of the history with one more stroke
    appended. *)
Theorem erase_monotonic (pf : Platform) (props : Props) (st : State)
    (s : DrawPath) (i j : Z) :
  fullyTransparent (generateMaskedImage pf props st) i j = true ->
  fullyTransparent
    (generateMaskedImage pf props (setPaths (fun prev => prev ++ [s]) st)) i j = true.
Proof.
  unfold fullyTransparent.
  destruct (getContext2d pf) eqn:G.
  - rewrite !(generateMaskedImage_pixel _ _ _ _ _ G). simpl.
    destruct (inRaster _ _ i j); [|discriminate].
    rewrite fold_left_app. simpl. intros A.
    apply Z.eqb_eq. apply Z.eqb_eq in A.
    apply eraseStroke_alpha0; [|exact A].
    apply (erase_fold_ready pf (paths st) _ (maskBase_ready pf props st)).
  - unfold generateMaskedImage. rewrite G. simpl. discriminate.
Qed.

(** C6 (amended): for a history of strokes with positive brush sizes and
    any permutation of it, the two exports have the same pixel, and so
    agree on its being fully transparent, at every pixel that each stroke
    either misses or contains, and at every pixel that some stroke
    contains; a pixel of the canvas that some stroke contains is fully
    transparent in every order. *)
Theorem mask_order_independent (pf : Platform) (props : Props) (st : State)
    (S1 S2 : list DrawPath) (i j : Z) :
  Permutation S1 S2 ->
  Forall (fun p => (0 < brushSize p)%Q) S1 ->
  Forall (fun p => misses pf i j p \/ fullyCovers pf i j p) S1
  \/ Exists (fullyCovers pf i j) S1 ->
  pixelOf (generateMaskedImage pf props (setPaths (fun _ => S1) st)) i j
  = pixelOf (generateMaskedImage pf props (setPaths (fun _ => S2) st)) i j
  /\ fullyTransparent (generateMaskedImage pf props (setPaths (fun _ => S1) st)) i j
     = fullyTransparent (generateMaskedImage pf props (setPaths (fun _ => S2) st)) i j
  /\ (Exists (fullyCovers pf i j) S1 ->
      getContext2d pf = true ->
      inRaster (width (imageDimensions st)) (height (imageDimensions st)) i j = true ->
      fullyTransparent (generateMaskedImage pf props (setPaths (fun _ => S2) st)) i j
      = true).
Proof.
  intros P F C.
  assert (F2 : Forall (fun p => (0 < brushSize p)%Q) S2).
  { eapply Permutation_Forall; eassumption. }
  assert (T : Exists (fullyCovers pf i j) S1 ->
              getContext2d pf = true ->
              inRaster (width (imageDimensions st)) (height (imageDimensions st)) i j
              = true ->
              fullyTransparent
                (generateMaskedImage pf props (setPaths (fun _ => S2) st)) i j = true).
  { intros X G I.
    assert (X2 : Exists (fullyCovers pf i j) S2).
    { eapply Permutation_Exists; eassumption. }
    unfold fullyTransparent. rewrite (generateMaskedImage_pixel _ _ _ _ _ G).
    cbn [paths imageDimensions setPaths]. rewrite I.
    rewrite (erase_fold_full pf S2 _ i j (maskBase_ready pf props _) F2); [reflexivity| |exact X2].
    rewrite inCanvas_inRaster.
    destruct (maskBase_size pf props (setPaths (fun _ => S2) st)) as (A & B).
    rewrite A, B. exact I. }
  assert (E : pixelOf (generateMaskedImage pf props (setPaths (fun _ => S1) st)) i j
              = pixelOf (generateMaskedImage pf props (setPaths (fun _ => S2) st)) i j).
  { destruct (getContext2d pf) eqn:G.
    - rewrite !(generateMaskedImage_pixel _ _ _ _ _ G).
      cbn [paths imageDimensions setPaths].
      destruct (inRaster _ _ i j) eqn:I; [|reflexivity].
      f_equal.
      destruct C as [M|X].
      + assert (M2 : Forall (fun p => misses pf i j p \/ fullyCovers pf i j p) S2).
        { eapply Permutation_Forall; eassumption. }
        rewrite (erase_fold_bitmap pf S1 _ i j (maskBase_ready pf props _) F M).
        rewrite (erase_fold_bitmap pf S2 _ i j (maskBase_ready pf props _) F2 M2).
        rewrite (existsb_Permutation _ _ _ P). reflexivity.
      + assert (X2 : Exists (fullyCovers pf i j) S2).
        { eapply Permutation_Exists; eassumption. }
        assert (IC : forall l, inCanvas (maskBase pf props (setPaths (fun _ => l) st)) i j = true).
        { intros l. rewrite inCanvas_inRaster.
          destruct (maskBase_size pf props (setPaths (fun _ => l) st)) as (A & B).
          rewrite A, B. exact I. }
        rewrite (erase_fold_full pf S1 _ i j (maskBase_ready pf props _) F (IC S1) X).
        rewrite (erase_fold_full pf S2 _ i j (maskBase_ready pf props _) F2 (IC S2) X2).
        reflexivity.
    - unfold generateMaskedImage. rewrite G. reflexivity. }
  split; [exact E|]. split; [|exact T].
  unfold fullyTransparent. rewrite E. reflexivity.
Qed.

(** ** Image change *)

(** C9 (amended): when the image source changes, the update cycle it
    starts ends with an empty history and no in-progress points, and the
    last render and the last export of the cycle are made from that
    state. *)
Theorem image_change_resets_history (pf : Platform) (m : Mounted) (props' : Props) :
  imageSrc props' <> imageSrc (m_props m) ->
  exists s' pass1,
    step pf m (EvProps props')
    = Some (mkMounted props' s',
            pass1 ++ Painted (renderCanvas pf props' s')
                  :: (if 0 <? width (imageDimensions s')
                      then [Exported (generateMaskedImage pf props' s')]
                      else []))
    /\ paths s' = [] /\ currentPath s' = [].
Proof.
  intros N.
  destruct (loadEffect_ids (m_state m)) as (Eid & Eneed & Ep & Ec & _).
  set (s' := setCurrentPath (fun _ => []) (setPaths (fun _ => []) (m_state m))) in *.
  exists s'.
  exists ([ImageRequested (imageSrc props')]
          ++ renderEffect pf (Some (m_props m, m_state m)) props' (m_state m)
          ++ exportEffect pf (Some (m_props m, m_state m)) props' (m_state m)).
  split; [|split; assumption].
  rewrite step_eq. cbn [handle]. unfold commitEffects, loadEffect.
  assert (C : imageSrc_changed (Some (m_props m, m_state m)) props' = true).
  { unfold imageSrc_changed. apply negb_true_iff, String.eqb_neq. congruence. }
  rewrite C. fold s'. rewrite Eneed.
  rewrite (renderEffect_paths pf props' props' (m_state m) s' Eid).
  rewrite (exportEffect_paths pf props' props' (m_state m) s' Eid).
  reflexivity.
Qed.

(** The image-change cycle of a component holding one stroke. *)
Lemma image_change_resets_history_witness :
  exists s' pass1,
    step samplePlatform
         (mkMounted (sampleProps "a" 40) (setPaths (fun _ => [strokeA]) sampleLoaded))
         (EvProps (sampleProps "b" 40))
    = Some (mkMounted (sampleProps "b" 40) s',
            pass1 ++ Painted (renderCanvas samplePlatform (sampleProps "b" 40) s')
                  :: (if 0 <? width (imageDimensions s')
                      then [Exported (generateMaskedImage samplePlatform
                                        (sampleProps "b" 40) s')]
                      else []))
    /\ paths s' = [] /\ currentPath s' = [].
Proof.
  apply (image_change_resets_history samplePlatform
           (mkMounted (sampleProps "a" 40)
                      (setPaths (fun _ => [strokeA]) sampleLoaded))
           (sampleProps "b" 40)).
  cbn. discriminate.
Defined.

(** C9 (as stated, refuted): after a stroke at (100,100) on image "a", the
    change to image "b" first exports a mask of "b" in which that pixel is
    erased, and first paints "b" with the highlight of that stroke over
    it, although "b" is opaque there and no stroke was drawn on it. *)
Lemma stale_strokes_reach_new_image :
  strokesOf (sampleRun (sampleProps "a" 40)
               [EvImageLoad 320 240; EvPointerDown (MouseEvent 100 100);
                EvPointerUp])
  = [strokeA]
  /\ option_map (fun d => fullyTransparent d 100 100)
       (firstExport
          (outputsOf
             (sampleStepAfter (sampleProps "a" 40)
                [EvImageLoad 320 240; EvPointerDown (MouseEvent 100 100);
                 EvPointerUp]
                (EvProps (sampleProps "b" 40)))))
     = Some true
  /\ option_map (fun c => bitmap c 100 100)
       (firstPainted
          (outputsOf
             (sampleStepAfter (sampleProps "a" 40)
                [EvImageLoad 320 240; EvPointerDown (MouseEvent 100 100);
                 EvPointerUp]
                (EvProps (sampleProps "b" 40)))))
     = Some (composite SourceOver translucentRed (mkPixel 200 200 100 255))
  /\ imagePixel sampleImageB 100 100 = Some (mkPixel 200 200 100 255).
Proof. vm_compute. repeat split; reflexivity. Qed.

(** The same cycle ends with the stroke gone from the export. *)
Example image_change_last_export :
  option_map (fun d => pixelOf d 100 100)
    (lastExport
       (outputsOf
          (sampleStepAfter (sampleProps "a" 40)
             [EvImageLoad 320 240; EvPointerDown (MouseEvent 100 100);
              EvPointerUp]
             (EvProps (sampleProps "b" 40)))))
  = Some (imagePixel sampleImageB 100 100).
Proof. vm_compute. reflexivity. Qed.

(** ** Witnesses and examples for the compositor *)

Lemma empty_mask_is_source_witness :
  pixelOf (generateMaskedImage samplePlatform (sampleProps "a" 40) sampleLoaded)
          10 20
  = imagePixel sampleImageA 10 20.
Proof.
  apply (proj1 (empty_mask_is_source samplePlatform (sampleProps "a" 40)
                  sampleLoaded sampleImageA
                  eq_refl eq_refl eq_refl eq_refl eq_refl) eq_refl).
Defined.

Lemma erase_monotonic_witness :
  fullyTransparent
    (generateMaskedImage samplePlatform (sampleProps "a" 40)
       (setPaths (fun prev => prev ++ [strokeB])
                 (setPaths (fun _ => [strokeA]) sampleLoaded)))
    100 100 = true.
Proof.
  apply (erase_monotonic samplePlatform (sampleProps "a" 40)
           (setPaths (fun _ => [strokeA]) sampleLoaded) strokeB 100 100).
  vm_compute. reflexivity.
Defined.

Lemma mask_order_independent_witness :
  fullyTransparent
    (generateMaskedImage samplePlatform (sampleProps "a" 40)
       (setPaths (fun _ => [strokeA; strokeB]) sampleLoaded)) 100 100
  = fullyTransparent
      (generateMaskedImage samplePlatform (sampleProps "a" 40)
         (setPaths (fun _ => [strokeB; strokeA]) sampleLoaded)) 100 100.
Proof.
  refine (proj1 (proj2 (mask_order_independent samplePlatform (sampleProps "a" 40)
                          sampleLoaded [strokeA; strokeB] [strokeB; strokeA] 100 100
                          _ _ _))).
  - apply perm_swap.
  - constructor; [reflexivity | constructor; [reflexivity | constructor]].
  - left. constructor; [right; vm_compute; reflexivity|].
    constructor; [left; vm_compute; reflexivity | constructor].
Defined.

(** C6 (as stated, refuted): on an image whose pixels have alpha 2, two
    clicks with brush size 40, at (100,100) and at (101,99).  The rims of
    both cross pixel (116,111), covering 91/255 and 155/255 of it.
    Clicked in one order, the export has the pixel fully transparent;
    clicked in the other order, it keeps alpha 1: each erasure is rounded
    to 8 bits. *)
Lemma rim_pixel_is_order_sensitive :
  strokesOf rimRunAB = [strokeA; strokeNear]
  /\ strokesOf rimRunBA = [strokeNear; strokeA]
  /\ Permutation (strokesOf rimRunAB) (strokesOf rimRunBA)
  /\ coverage samplePlatform strokeA 116 111 = 91
  /\ coverage samplePlatform strokeNear 116 111 = 155
  /\ imagePixel sampleImageFaint 116 111 = Some (mkPixel 2 2 2 2)
  /\ option_map (fun d => pixelOf d 116 111) (lastExport (outputsOf rimRunAB))
     = Some (Some transparentBlack)
  /\ option_map (fun d => pixelOf d 116 111) (lastExport (outputsOf rimRunBA))
     = Some (Some (mkPixel 1 1 1 1))
  /\ option_map (fun d => fullyTransparent d 116 111) (lastExport (outputsOf rimRunAB))
     = Some true
  /\ option_map (fun d => fullyTransparent d 116 111) (lastExport (outputsOf rimRunBA))
     = Some false.
Proof.
  split; [vm_compute; reflexivity|]. split; [vm_compute; reflexivity|].
  split; [vm_compute; apply perm_swap|].
  vm_compute. repeat split; reflexivity.
Qed.

(** The scenario of the spec: one click at (100,100) with brush size 40
    erases the pixels that lie within 20 of it and leaves alone those
    that lie beyond. *)
Example single_click_mask :
  let d := generateMaskedImage samplePlatform (sampleProps "a" 40)
             (setPaths (fun _ => [strokeA]) sampleLoaded) in
  fullyTransparent d 100 100 = true
  /\ fullyTransparent d 119 100 = true
  /\ pixelOf d 120 100 = imagePixel sampleImageA 120 100
  /\ fullyTransparent d 100 80 = true
  /\ pixelOf d 100 79 = imagePixel sampleImageA 100 79.
Proof. vm_compute. repeat split; reflexivity. Qed.

(** Why C6 asks for positive brush sizes: the canvas ignores the
    assignment of a zero line width, so a stroke of brush size 0 is drawn
    with the width left by the stroke before it. *)
Remark zero_brush_is_order_sensitive :
  fullyTransparent
    (generateMaskedImage samplePlatform (sampleProps "a" 40)
       (setPaths (fun _ => [strokeA; strokeZero]) sampleLoaded)) 210 100 = true
  /\ fullyTransparent
       (generateMaskedImage samplePlatform (sampleProps "a" 40)
          (setPaths (fun _ => [strokeZero; strokeA]) sampleLoaded)) 210 100 = false.
Proof. vm_compute. split; reflexivity. Qed.

(** ** Brush size *)

(** The state a step ends in: the handler's, then the reset of the load
    effect when the image source changed. *)
Lemma step_state (pf : Platform) (m : Mounted) (ev : Event) :
  exists out,
    step pf m ev
    = Some (mkMounted (fst (handle pf m ev))
              (fst (loadEffect (Some (m_props m, m_state m))
                      (fst (handle pf m ev)) (snd (handle pf m ev)))),
            out).
Proof.
  rewrite step_eq. destruct (handle pf m ev) as [props' s']. cbn [fst snd].
  unfold commitEffects.
  destruct (loadEffect (Some (m_props m, m_state m)) props' s') as [s'' o1].
  cbn [fst]. destruct (needsRender s' s''); eexists; reflexivity.
Qed.

Lemma startDrawing_paths (pf : Platform) (s s' : State) (e : PointerEvent) :
  startDrawing pf s e = Normal s' -> paths s' = paths s.
Proof.
  unfold startDrawing, getCoordinates.
  destruct e as [cx cy|ts]; destruct (canvasRef pf);
    cbn; try (destruct ts); cbn; intros E; inversion E; reflexivity.
Qed.

Lemma draw_paths (pf : Platform) (s s' : State) (e : PointerEvent) :
  draw pf s e = Normal s' -> paths s' = paths s.
Proof.
  unfold draw, getCoordinates.
  destruct e as [cx cy|ts]; destruct (canvasRef pf); destruct (isDrawing s);
    cbn; try (destruct ts); cbn; intros E; inversion E; reflexivity.
Qed.

Lemma stopDrawing_paths (props : Props) (s : State) :
  (isDrawing s = true /\ currentPath s <> []
   /\ paths (stopDrawing props s)
      = paths s ++ [ {| points := currentPath s; brushSize := brushSizeProp props |} ])
  \/ paths (stopDrawing props s) = paths s.
Proof.
  unfold stopDrawing.
  destruct (isDrawing s) eqn:D; [|right; reflexivity].
  destruct (currentPath s) as [|p l] eqn:C; [right; reflexivity|].
  left. split; [reflexivity|]. split; [discriminate|]. reflexivity.
Qed.

(** What an event can do to the history: nothing, append the stroke in
    progress, drop the last stroke, or empty it. *)
Lemma handle_paths (pf : Platform) (m : Mounted) (ev : Event) :
  let s := m_state m in
  let s' := snd (handle pf m ev) in
  paths s' = paths s
  \/ (isDrawing s = true /\ currentPath s <> []
      /\ paths s' = paths s ++ [ {| points := currentPath s;
                                    brushSize := brushSizeProp (m_props m) |} ])
  \/ paths s' = js_slice (paths s) 0 (-1)
  \/ paths s' = [].
Proof.
  destruct ev as [p|w h|e|e| | | | |]; cbn [handle snd]; cbv zeta.
  - left; reflexivity.
  - left; reflexivity.
  - left. destruct (startDrawing pf (m_state m) e) eqn:E; [|reflexivity].
    apply (startDrawing_paths _ _ _ _ E).
  - left. destruct (draw pf (m_state m) e) eqn:E; [|reflexivity].
    apply (draw_paths _ _ _ _ E).
  - destruct (stopDrawing_paths (m_props m) (m_state m)) as [H|H]; [right; left|left]; exact H.
  - left; reflexivity.
  - unfold handleMouseLeave.
    destruct (stopDrawing_paths (m_props m) (setIsHovering false (m_state m))) as [H|H];
      [right; left|left]; exact H.
  - destruct (Nat.eqb _ 0); [left; reflexivity|]. right; right; left. reflexivity.
  - destruct (Nat.eqb _ 0); [left; reflexivity|]. right; right; right. reflexivity.
Qed.









(** ** The export guard *)

Lemma firstExport_app (a b : list Output) :
  firstExport (a ++ b)
  = match firstExport a with Some d => Some d | None => firstExport b end.
Proof.
  induction a as [|o a IH]; [reflexivity|].
  destruct o; simpl; try exact IH. reflexivity.
Qed.

Lemma exportEffect_guard (pf : Platform) (prev : Closure) (props : Props) (s : State) :
  width (imageDimensions s) <= 0 -> exportEffect pf prev props s = [].
Proof.
  intros H. unfold exportEffect.
  replace (0 <? width (imageDimensions s)) with false by lia.
  destruct (_ || _); reflexivity.
Qed.

Lemma renderEffect_no_export (pf : Platform) (prev : Closure) (props : Props) (s : State) :
  firstExport (renderEffect pf prev props s) = None.
Proof. unfold renderEffect. destruct (_ || _); reflexivity. Qed.

Lemma loadEffect_spec (prev : Closure) (props : Props) (s : State) :
  imageDimensions (fst (loadEffect prev props s)) = imageDimensions s
  /\ firstExport (snd (loadEffect prev props s)) = None.
Proof.
  unfold loadEffect. destruct (imageSrc_changed prev props); split; reflexivity.
Qed.

(** While the stored width is not positive a render cycle exports nothing,
    and it keeps the stored dimensions. *)
Lemma settle_no_export (pf : Platform) (prev : Closure) (props : Props) (s : State) :
  width (imageDimensions s) <= 0 ->
  exists s' out, settle pf prev props s = Some (s', out)
                 /\ firstExport out = None
                 /\ imageDimensions s' = imageDimensions s.
Proof.
  intros H. rewrite settle_eq. unfold commitEffects.
  destruct (loadEffect_spec prev props s) as (Ed & Eo).
  destruct (loadEffect prev props s) as [s' o1]. cbn [fst snd] in Ed, Eo.
  assert (H' : width (imageDimensions s') <= 0) by (rewrite Ed; exact H).
  destruct (needsRender s s'); eexists; eexists;
    (split; [reflexivity|]); split; try exact Ed.
  - rewrite !firstExport_app, Eo, !renderEffect_no_export,
      (exportEffect_guard pf _ props s H), (exportEffect_guard pf _ props s' H').
    reflexivity.
  - rewrite !firstExport_app, Eo, renderEffect_no_export,
      (exportEffect_guard pf _ props s H). reflexivity.
Qed.

Lemma draw_keeps_dimensions (pf : Platform) (s s' : State) (e : PointerEvent) :
  draw pf s e = Normal s' -> imageDimensions s' = imageDimensions s.
Proof.
  unfold draw, getCoordinates.
  destruct e as [cx cy|ts]; destruct (canvasRef pf); destruct (isDrawing s);
    cbn; try (destruct ts); cbn; intros E; inversion E; reflexivity.
Qed.

Lemma startDrawing_keeps_dimensions (pf : Platform) (s s' : State) (e : PointerEvent) :
  startDrawing pf s e = Normal s' -> imageDimensions s' = imageDimensions s.
Proof.
  unfold startDrawing, getCoordinates.
  destruct e as [cx cy|ts]; destruct (canvasRef pf);
    cbn; try (destruct ts); cbn; intros E; inversion E; reflexivity.
Qed.

Lemma stopDrawing_keeps_dimensions (props : Props) (s : State) :
  imageDimensions (stopDrawing props s) = imageDimensions s.
Proof. unfold stopDrawing. destruct (_ && _); reflexivity. Qed.

(** Only the image's [onload] changes the stored dimensions. *)
Lemma handle_keeps_dimensions (pf : Platform) (m : Mounted) (ev : Event) :
  (forall w h, ev <> EvImageLoad w h) ->
  imageDimensions (snd (handle pf m ev)) = imageDimensions (m_state m).
Proof.
  intros N. destruct ev as [p|w h|e|e| | | | |]; cbn [handle snd]; try reflexivity.
  - exfalso. apply (N w h). reflexivity.
  - destruct (startDrawing pf (m_state m) e) eqn:E; [|reflexivity].
    apply (startDrawing_keeps_dimensions _ _ _ _ E).
  - destruct (draw pf (m_state m) e) eqn:E; [|reflexivity].
    apply (draw_keeps_dimensions _ _ _ _ E).
  - apply stopDrawing_keeps_dimensions.
  - unfold handleMouseLeave. rewrite stopDrawing_keeps_dimensions. reflexivity.
  - destruct (Nat.eqb _ 0); reflexivity.
  - destruct (Nat.eqb _ 0); reflexivity.
Qed.

(** C8 (amended): the export effect runs the compositor exactly when the
    stored width is positive; the height is not examined.  With a width
    that is not positive the effect does nothing; mounting exports
    nothing, and every event other than the image's load is handled to
    completion without an export. *)
Theorem export_guard_checks_width (pf : Platform) (prev : Closure)
    (props : Props) (s : State) :
  (width (imageDimensions s) <= 0 -> exportEffect pf prev props s = [])
  /\ (0 < width (imageDimensions s) ->
      paths_changed prev s || imageSrc_changed prev props
        || imageDimensions_changed prev s || onExport_changed prev props = true ->
      exportEffect pf prev props s = [Exported (generateMaskedImage pf props s)])
  /\ (exists m out, mount pf props = Some (m, out) /\ firstExport out = None)
  /\ (forall ev,
        width (imageDimensions s) <= 0 ->
        (forall w h, ev <> EvImageLoad w h) ->
        exists m' out,
          step pf (mkMounted props s) ev = Some (m', out)
          /\ firstExport out = None
          /\ imageDimensions (m_state m') = imageDimensions s).
Proof.
  split; [apply exportEffect_guard|]. split; [|split].
  - intros W C. unfold exportEffect. rewrite C.
    replace (0 <? width (imageDimensions s)) with true by lia. reflexivity.
  - unfold mount.
    destruct (settle_no_export pf None props initialState) as (s' & out & E & F & _).
    { cbn. lia. }
    rewrite E. eexists; eexists; split; [reflexivity | exact F].
  - intros ev W N. unfold step.
    pose proof (handle_keeps_dimensions pf (mkMounted props s) ev N) as K.
    destruct (handle pf (mkMounted props s) ev) as [props' s1].
    cbn [snd m_state] in K.
    destruct (settle_no_export pf (Some (m_props (mkMounted props s),
                                         m_state (mkMounted props s)))
                props' s1) as (s2 & out & E & F & G).
    { rewrite K. exact W. }
    rewrite E. eexists; eexists. split; [reflexivity|]. split; [exact F|].
    cbn [m_state]. rewrite G. exact K.
Qed.

Lemma export_guard_checks_width_witness :
  exportEffect samplePlatform None (sampleProps "flat" 40)
               (img_onload samplePlatform 5 0 initialState)
  = [Exported (generateMaskedImage samplePlatform (sampleProps "flat" 40)
                 (img_onload samplePlatform 5 0 initialState))].
Proof.
  apply (proj1 (proj2 (export_guard_checks_width samplePlatform None
                         (sampleProps "flat" 40)
                         (img_onload samplePlatform 5 0 initialState)))).
  - reflexivity.
  - reflexivity.
Defined.

(** C8 (as stated, refuted): an image of native size 5x0 loads; the stored
    height is 0, and the compositor runs all the same and its result, the
    data URL of a canvas without pixels, is exported. *)
Lemma export_with_zero_height :
  option_map (fun r => (imageDimensions (m_state (fst r)), lastExport (snd r)))
             (sampleRun (sampleProps "flat" 40) [EvImageLoad 5 0])
  = Some (mkDimensions 5 0, Some DataComma)
  /\ naturalHeight sampleImageFlat = 0.
Proof. vm_compute. split; reflexivity. Qed.

(** * Further properties of the code *)

(** ** Sessions *)

Lemma mount_state (pf : Platform) (props : Props) :
  exists out,
    mount pf props
    = Some (mkMounted props
              (setCurrentPath (fun _ => []) (setPaths (fun _ => []) initialState)),
            out).
Proof.
  unfold mount. rewrite settle_eq. unfold commitEffects, loadEffect.
  cbn [imageSrc_changed].
  destruct (needsRender _ _); eexists; reflexivity.
Qed.

(** An invariant of the handlers and of the reset is an invariant of
    every session whose events satisfy [E]. *)
Lemma session_invariant (P : Props -> State -> Prop) (E : Event -> Prop) :
  (forall props s, P props s ->
     P props (setCurrentPath (fun _ => []) (setPaths (fun _ => []) s))) ->
  (forall pf m ev, E ev -> P (m_props m) (m_state m) ->
     P (fst (handle pf m ev)) (snd (handle pf m ev))) ->
  forall pf props evs,
    P props initialState -> Forall E evs ->
    exists m out, session pf props evs = Some (m, out)
                  /\ P (m_props m) (m_state m).
Proof.
  intros Hreset Hhandle pf props evs H0 HE.
  unfold session.
  destruct (mount_state pf props) as (o0 & Em). rewrite Em.
  assert (G : forall evs m, Forall E evs -> P (m_props m) (m_state m) ->
              exists m' out, run pf m evs = Some (m', out)
                             /\ P (m_props m') (m_state m')).
  { clear HE. intros evs0; induction evs0 as [|ev rest IH]; intros m HE Hm.
    - exists m, []. split; [reflexivity | exact Hm].
    - inversion HE as [|? ? Hev Hrest]; subst.
      cbn [run]. destruct (step_state pf m ev) as (o1 & E1). rewrite E1.
      pose proof (Hhandle pf m ev Hev Hm) as Hh.
      set (p1 := fst (handle pf m ev)) in *.
      set (s1 := snd (handle pf m ev)) in *.
      assert (Hl : P p1 (fst (loadEffect (Some (m_props m, m_state m)) p1 s1))).
      { unfold loadEffect. destruct (imageSrc_changed _ p1); cbn [fst];
          [apply Hreset|]; exact Hh. }
      destruct (IH (mkMounted p1 (fst (loadEffect (Some (m_props m, m_state m)) p1 s1)))
                  Hrest Hl) as (m' & o' & Er & Pm).
      rewrite Er. eexists; eexists; split; [reflexivity | exact Pm]. }
  destruct (G evs (mkMounted props
                     (setCurrentPath (fun _ => [])
                        (setPaths (fun _ => []) initialState)))
              HE (Hreset _ _ H0)) as (m' & o' & Er & Pm).
  rewrite Er. eexists; eexists; split; [reflexivity | exact Pm].
Qed.

Lemma Forall_firstn {A} (P : A -> Prop) (n : nat) : forall l,
  Forall P l -> Forall P (firstn n l).
Proof.
  induction n as [|n IH]; intros l F; [constructor|].
  destruct F; cbn [firstn]; constructor; auto.
Qed.

Lemma Forall_skipn {A} (P : A -> Prop) (n : nat) : forall l,
  Forall P l -> Forall P (skipn n l).
Proof.
  induction n as [|n IH]; intros l F; [exact F|].
  destruct F; cbn [skipn]; [constructor | auto].
Qed.

Lemma js_slice_Forall {A} (P : A -> Prop) (l : list A) (a b : Z) :
  Forall P l -> Forall P (js_slice l a b).
Proof. intros F. unfold js_slice. apply Forall_firstn, Forall_skipn, F. Qed.

Lemma Forall_trivial {A} (l : list A) : Forall (fun _ => True) l.
Proof. induction l; constructor; auto. Qed.

(** X1: in every session, whatever the events, each stroke of the
    history holds at least one point. *)
Theorem committed_strokes_have_points (pf : Platform) (props : Props)
    (evs : list Event) :
  exists m out,
    session pf props evs = Some (m, out)
    /\ Forall (fun p => points p <> []) (paths (m_state m)).
Proof.
  apply (session_invariant
           (fun _ s => Forall (fun p => points p <> []) (paths s))
           (fun _ => True)).
  - intros p s _. constructor.
  - intros pf0 m ev _ F.
    destruct (handle_paths pf0 m ev) as [H | [(D & N & H) | [H | H]]];
      cbv zeta in H; rewrite H.
    + exact F.
    + apply Forall_app. split; [exact F|]. constructor; [exact N | constructor].
    + apply js_slice_Forall, F.
    + constructor.
  - constructor.
  - apply Forall_trivial.
Qed.

(** X2: in every session, whenever the recorder is idle ([isDrawing]
    false) the list of in-progress points is empty. *)
Theorem idle_has_no_points (pf : Platform) (props : Props) (evs : list Event) :
  exists m out,
    session pf props evs = Some (m, out)
    /\ (isDrawing (m_state m) = false -> currentPath (m_state m) = []).
Proof.
  apply (session_invariant
           (fun _ s => isDrawing s = false -> currentPath s = [])
           (fun _ => True)).
  - intros p s _ _. reflexivity.
  - intros pf0 m ev _ I.
    destruct ev as [p|w h|e|e| | | | |]; cbn [handle snd]; try exact I.
    + unfold startDrawing, getCoordinates.
      destruct e as [cx cy|ts]; destruct (canvasRef pf0);
        cbn; try (destruct ts); cbn; try exact I; discriminate.
    + unfold draw, getCoordinates.
      destruct e as [cx cy|ts]; destruct (canvasRef pf0);
        destruct (isDrawing (m_state m)) eqn:D;
        cbn; try (destruct ts); cbn; try rewrite D; try exact I;
        try discriminate.
    + intros _. unfold stopDrawing. destruct (_ && _); reflexivity.
    + intros _. unfold handleMouseLeave, stopDrawing. destruct (_ && _); reflexivity.
    + destruct (Nat.eqb _ 0); exact I.
    + destruct (Nat.eqb _ 0); exact I.
  - reflexivity.
  - apply Forall_trivial.
Qed.

(** X3: if the brush size is positive in the initial props and in every
    later props, every stroke of the history has a positive brush size. *)
Theorem committed_brush_sizes_positive (pf : Platform) (props : Props)
    (evs : list Event) :
  (0 < brushSizeProp props)%Q ->
  Forall brushPositive evs ->
  exists m out,
    session pf props evs = Some (m, out)
    /\ Forall (fun p => (0 < brushSize p)%Q) (paths (m_state m)).
Proof.
  intros H0 HE.
  destruct (session_invariant
              (fun p s => (0 < brushSizeProp p)%Q
                          /\ Forall (fun q => (0 < brushSize q)%Q) (paths s))
              brushPositive) with (pf := pf) (props := props) (evs := evs)
    as (m & out & E & _ & F).
  - intros p s [Hp _]. split; [exact Hp | constructor].
  - intros pf0 m ev Hev [Hp F]. split.
    + destruct ev; cbn [handle fst]; try exact Hp. exact Hev.
    + destruct (handle_paths pf0 m ev) as [H | [(D & N & H) | [H | H]]];
        cbv zeta in H; rewrite H.
      * exact F.
      * apply Forall_app. split; [exact F|]. constructor; [exact Hp | constructor].
      * apply js_slice_Forall, F.
      * constructor.
  - split; [exact H0 | constructor].
  - exact HE.
  - exists m, out. split; assumption.
Qed.

Lemma committed_brush_sizes_positive_witness :
  exists m out,
    session samplePlatform (sampleProps "a" 40)
      [EvImageLoad 320 240; EvPointerDown (MouseEvent 100 100);
       EvProps (sampleProps "a" 100); EvPointerUp]
    = Some (m, out)
    /\ Forall (fun p => (0 < brushSize p)%Q) (paths (m_state m)).
Proof.
  apply (committed_brush_sizes_positive samplePlatform (sampleProps "a" 40)).
  - reflexivity.
  - repeat constructor.
Defined.

(** ** The render cycle, counted *)

Lemma countPaints_app (a b : list Output) :
  countPaints (a ++ b) = (countPaints a + countPaints b)%nat.
Proof. unfold countPaints. rewrite filter_app, length_app. reflexivity. Qed.

Lemma countExports_app (a b : list Output) :
  countExports (a ++ b) = (countExports a + countExports b)%nat.
Proof. unfold countExports. rewrite filter_app, length_app. reflexivity. Qed.

Lemma effect_counts (pf : Platform) (prev : Closure) (props : Props) (s : State) :
  (countPaints (snd (loadEffect prev props s)) = 0
   /\ countExports (snd (loadEffect prev props s)) = 0)%nat
  /\ (countPaints (renderEffect pf prev props s) <= 1
      /\ countExports (renderEffect pf prev props s) = 0)%nat
  /\ (countPaints (exportEffect pf prev props s) = 0
      /\ countExports (exportEffect pf prev props s) <= 1)%nat.
Proof.
  unfold loadEffect, renderEffect, exportEffect.
  destruct (imageSrc_changed prev props);
    destruct (paths_changed prev s); destruct (currentPath_changed prev s);
    destruct (imageDimensions_changed prev s);
    destruct (brushSize_changed prev props); destruct (onExport_changed prev props);
    destruct (0 <? width (imageDimensions s)); cbn; repeat split; lia.
Qed.

(** X4: a render cycle settles with any fuel of at least two commits;
    it paints and exports at most twice, and at most once when the image
    source did not change. *)
Theorem render_cycle_settles (n : nat) (pf : Platform) (prev : Closure)
    (props : Props) (s : State) :
  exists s' out,
    flush (2 + n) pf prev props s = Some (s', out)
    /\ (countPaints out <= 2 /\ countExports out <= 2)%nat
    /\ (imageSrc_changed prev props = false ->
        (countPaints out <= 1 /\ countExports out <= 1)%nat).
Proof.
  rewrite flush_stable. fold (settle pf prev props s). rewrite settle_eq.
  unfold commitEffects.
  destruct (effect_counts pf prev props s) as ((A1 & A2) & (B1 & B2) & (C1 & C2)).
  destruct (loadEffect prev props s) as [s' o1] eqn:L. cbn [snd] in A1, A2.
  destruct (effect_counts pf (Some (props, s)) props s')
    as (_ & (D1 & D2) & (E1 & E2)).
  destruct (needsRender s s') eqn:N; eexists; eexists;
    (split; [reflexivity|]);
    rewrite ?countPaints_app, ?countExports_app; split; try lia.
  intros Hc. exfalso.
  unfold loadEffect in L. rewrite Hc in L. inversion L; subst.
  rewrite needsRender_refl in N. discriminate.
Qed.

(** ** Compositor and overlay, pixel by pixel *)

Lemma mask_pixel_value (pf : Platform) (props : Props) (s : State)
    (bm : ImageBitmap) (i j : Z) :
  getContext2d pf = true ->
  loadImage pf (imageSrc props) = Some bm ->
  0 < naturalWidth bm -> 0 < naturalHeight bm ->
  imageDimensions s = mkDimensions (naturalWidth bm) (naturalHeight bm) ->
  Forall (fun p => (0 < brushSize p)%Q) (paths s) ->
  (inRaster (naturalWidth bm) (naturalHeight bm) i j = false ->
   pixelOf (generateMaskedImage pf props s) i j = None)
  /\ (inRaster (naturalWidth bm) (naturalHeight bm) i j = true ->
      (Forall (misses pf i j) (paths s) ->
       pixelOf (generateMaskedImage pf props s) i j = Some (sample bm i j))
      /\ (Exists (fullyCovers pf i j) (paths s) ->
          pixelOf (generateMaskedImage pf props s) i j = Some transparentBlack)
      /\ (0 <= alpha (sample bm i j) ->
          exists p,
            pixelOf (generateMaskedImage pf props s) i j = Some p
            /\ 0 <= alpha p <= alpha (sample bm i j))).
Proof.
  intros G L Hw Hh D F.
  rewrite (generateMaskedImage_pixel pf props s i j G), D. cbn [width height].
  split; [intros I; rewrite I; reflexivity|].
  intros I. rewrite I.
  pose proof (maskBase_ready pf props s) as R.
  pose proof (maskBase_bitmap_native pf props s bm i j L Hw Hh D I) as B.
  split; [|split].
  - intros M. rewrite (erase_fold_missed pf (paths s) _ i j R F M), B. reflexivity.
  - intros X. rewrite (erase_fold_full pf (paths s) _ i j R F); [reflexivity| |exact X].
    rewrite inCanvas_inRaster.
    destruct (maskBase_size pf props s) as (A & A'). rewrite A, A', D. exact I.
  - intros A. eexists. split; [reflexivity|]. rewrite <- B.
    apply erase_fold_alpha_le; [exact R|]. rewrite B. exact A.
Qed.

(** X5: for a loaded image and strokes of positive brush size, the export
    has the extent of the image; a pixel that every stroke misses is the
    source pixel, a pixel that lies wholly inside some stroke is
    transparent black, and at every pixel, the rims of the strokes
    included, the alpha is at most that of the source pixel. *)
Theorem mask_pixels (pf : Platform) (props : Props) (s : State)
    (bm : ImageBitmap) (i j : Z) :
  getContext2d pf = true ->
  loadImage pf (imageSrc props) = Some bm ->
  0 < naturalWidth bm -> 0 < naturalHeight bm ->
  imageDimensions s = mkDimensions (naturalWidth bm) (naturalHeight bm) ->
  Forall (fun p => (0 < brushSize p)%Q) (paths s) ->
  (inRaster (naturalWidth bm) (naturalHeight bm) i j = false ->
   pixelOf (generateMaskedImage pf props s) i j = None)
  /\ (inRaster (naturalWidth bm) (naturalHeight bm) i j = true ->
      (Forall (misses pf i j) (paths s) ->
       pixelOf (generateMaskedImage pf props s) i j = Some (sample bm i j))
      /\ (Exists (fullyCovers pf i j) (paths s) ->
          pixelOf (generateMaskedImage pf props s) i j = Some transparentBlack)
      /\ (0 <= alpha (sample bm i j) ->
          exists p,
            pixelOf (generateMaskedImage pf props s) i j = Some p
            /\ 0 <= alpha p <= alpha (sample bm i j))).
Proof. apply mask_pixel_value. Qed.

Lemma mask_pixels_witness :
  pixelOf (generateMaskedImage samplePlatform (sampleProps "a" 40)
             (setPaths (fun _ => [strokeA; strokeB]) sampleLoaded)) 105 100
  = Some transparentBlack.
Proof.
  refine (proj1 (proj2 (proj2 (mask_pixels samplePlatform (sampleProps "a" 40)
            (setPaths (fun _ => [strokeA; strokeB]) sampleLoaded)
            sampleImageA 105 100 eq_refl eq_refl eq_refl eq_refl eq_refl _)
            eq_refl)) _).
  - repeat constructor.
  - apply Exists_cons_hd. vm_compute. reflexivity.
Defined.

(** At the rim of a click the export is neither the source pixel nor
    transparent: pixel (114,114) lies across the circle of radius 20
    around (100,100). *)
Example single_click_rim :
  let d := generateMaskedImage samplePlatform (sampleProps "a" 40)
             (setPaths (fun _ => [strokeA]) sampleLoaded) in
  coverage samplePlatform strokeA 114 114 = 11
  /\ imagePixel sampleImageA 114 114 = Some (mkPixel 114 114 7 255)
  /\ pixelOf d 114 114 = Some (mkPixel 109 109 7 244).
Proof. vm_compute. repeat split; reflexivity. Qed.

Lemma overlayStroke_eq (pf : Platform) (c : Context2D) (path : DrawPath) :
  overlayStroke pf c path
  = stroke pf (set_subpaths (tracedSubpaths (points path))
                 (set_lineWidth (brushSize path)
                    (set_strokeStyle translucentRed c))).
Proof.
  unfold overlayStroke.
  assert (E : set_lineWidth (brushSize path)
                (set_strokeStyle translucentRed (beginPath c))
              = beginPath (set_lineWidth (brushSize path)
                             (set_strokeStyle translucentRed c))).
  { unfold set_lineWidth. destruct (Qlt_le_dec 0 (brushSize path)); reflexivity. }
  rewrite E, tracePoints_begin. reflexivity.
Qed.

Lemma overlayStroke_fields (pf : Platform) (c : Context2D) (path : DrawPath) :
  canvas_width (overlayStroke pf c path) = canvas_width c
  /\ canvas_height (overlayStroke pf c path) = canvas_height c
  /\ globalCompositeOperation (overlayStroke pf c path) = globalCompositeOperation c
  /\ lineCap (overlayStroke pf c path) = lineCap c
  /\ lineJoin (overlayStroke pf c path) = lineJoin c.
Proof.
  rewrite overlayStroke_eq. cbn [stroke set_bitmap set_subpaths canvas_width
    canvas_height globalCompositeOperation lineCap lineJoin].
  destruct (set_lineWidth_fields (brushSize path) (set_strokeStyle translucentRed c))
    as (A & B & _ & D & E & F & _).
  cbv zeta in A, B, D, E, F. rewrite A, B, D, E, F. repeat split; reflexivity.
Qed.

Lemma overlayStroke_ready (pf : Platform) (c : Context2D) (path : DrawPath) :
  overlayReady c -> overlayReady (overlayStroke pf c path).
Proof.
  intros (Rg & Rc & Rj). unfold overlayReady.
  destruct (overlayStroke_fields pf c path) as (_ & _ & G & Cc & Cj).
  rewrite G, Cc, Cj. auto.
Qed.

(** One stroke of the overlay loop, pixel by pixel, whatever the line
    width in force. *)
Lemma overlayStroke_bitmap_any (pf : Platform) (c : Context2D) (path : DrawPath)
    (i j : Z) :
  bitmap (overlayStroke pf c path) i j
  = let cov :=
      clampCoverage
        (rasterize pf (lineCap c) (lineJoin c)
           (lineWidth (set_lineWidth (brushSize path)
                         (set_strokeStyle translucentRed c)))
           (tracedSubpaths (points path)) i j) in
    if inCanvas c i j && (0 <? cov)
    then composite (globalCompositeOperation c)
                   (coverPixel cov translucentRed) (bitmap c i j)
    else bitmap c i j.
Proof.
  rewrite overlayStroke_eq.
  destruct (set_lineWidth_fields (brushSize path) (set_strokeStyle translucentRed c))
    as (A & B & C & D & E & F & G).
  cbv zeta in A, B, C, D, E, F, G.
  unfold stroke. cbn [set_bitmap bitmap set_subpaths canvas_width canvas_height
    globalCompositeOperation lineCap lineJoin lineWidth strokeStyle subpaths].
  unfold inCanvas. cbn [set_subpaths canvas_width canvas_height].
  rewrite A, B, C, D, E, F, G.
  reflexivity.
Qed.

Lemma overlayStroke_bitmap (pf : Platform) (c : Context2D) (path : DrawPath) (i j : Z) :
  overlayReady c -> (0 < brushSize path)%Q ->
  bitmap (overlayStroke pf c path) i j
  = if inCanvas c i j && (0 <? coverage pf path i j)
    then composite SourceOver
           (coverPixel (coverage pf path i j) translucentRed) (bitmap c i j)
    else bitmap c i j.
Proof.
  intros (Rg & Rc & Rj) Hp.
  rewrite overlayStroke_bitmap_any, (set_lineWidth_positive _ _ Hp), Rg, Rc, Rj.
  reflexivity.
Qed.

Lemma composite_over_opaque (s d : Pixel) :
  alpha d = 255 -> alpha (composite SourceOver s d) = 255.
Proof.
  intros E. unfold composite, scaleChannel. cbn [alpha].
  rewrite E, Z.mul_comm, Z.div_add_l by lia. change (127 / 255) with 0. lia.
Qed.

Lemma overlay_fold_fields (pf : Platform) (l : list DrawPath) : forall c,
  canvas_width (fold_left (overlayStroke pf) l c) = canvas_width c
  /\ canvas_height (fold_left (overlayStroke pf) l c) = canvas_height c.
Proof.
  induction l as [|p l IH]; intros c; cbn [fold_left]; [split; reflexivity|].
  destruct (IH (overlayStroke pf c p)) as (A & B).
  destruct (overlayStroke_fields pf c p) as (A' & B' & _).
  rewrite A, B, A', B'. split; reflexivity.
Qed.

(** A pixel that every stroke misses is left alone by the overlay. *)
Lemma overlay_fold_missed (pf : Platform) (l : list DrawPath) : forall c i j,
  overlayReady c ->
  Forall (fun p => (0 < brushSize p)%Q) l ->
  Forall (misses pf i j) l ->
  bitmap (fold_left (overlayStroke pf) l c) i j = bitmap c i j.
Proof.
  induction l as [|p l IH]; intros c i j R F M; cbn [fold_left]; [reflexivity|].
  inversion F as [|? ? Hp F']; subst. inversion M as [|? ? Mp M']; subst.
  rewrite (IH _ i j (overlayStroke_ready pf c p R) F' M').
  rewrite (overlayStroke_bitmap pf c p i j R Hp).
  unfold misses in Mp. rewrite Mp, andb_false_r. reflexivity.
Qed.

(** The highlight never makes an opaque pixel translucent. *)
Lemma overlay_fold_opaque (pf : Platform) (l : list DrawPath) : forall c i j,
  overlayReady c ->
  alpha (bitmap c i j) = 255 ->
  alpha (bitmap (fold_left (overlayStroke pf) l c) i j) = 255.
Proof.
  induction l as [|p l IH]; intros c i j R A; cbn [fold_left]; [exact A|].
  apply (IH _ i j (overlayStroke_ready pf c p R)).
  rewrite overlayStroke_bitmap_any. cbv zeta.
  destruct R as (Rg & _). rewrite Rg.
  destruct (_ && _); [apply composite_over_opaque|]; exact A.
Qed.

Lemma renderCanvas_eq (pf : Platform) (props : Props) (s : State) (rect : DOMRect) :
  canvasRef pf = Some rect -> getContext2d pf = true ->
  renderCanvas pf props s
  = Some (fold_left (overlayStroke pf) (overlayStrokes props s)
                    (overlayBase pf props s)).
Proof.
  intros C G. unfold renderCanvas, overlayStrokes. rewrite C, G. cbn [negb].
  rewrite fold_left_app.
  destruct (0 <? Z.of_nat (List.length (currentPath s))); reflexivity.
Qed.

Lemma overlayBase_native (pf : Platform) (props : Props) (s : State)
    (bm : ImageBitmap) :
  loadImage pf (imageSrc props) = Some bm ->
  0 < naturalWidth bm -> 0 < naturalHeight bm ->
  imageDimensions s = mkDimensions (naturalWidth bm) (naturalHeight bm) ->
  overlayReady (overlayBase pf props s)
  /\ canvas_width (overlayBase pf props s) = naturalWidth bm
  /\ canvas_height (overlayBase pf props s) = naturalHeight bm
  /\ (forall i j, inRaster (naturalWidth bm) (naturalHeight bm) i j = true ->
                  bitmap (overlayBase pf props s) i j = sample bm i j).
Proof.
  intros L Hw Hh D. unfold overlayBase. rewrite L, D.
  cbn [complete width height]. unfold drawImage.
  replace (naturalWidth bm <=? 0) with false by lia.
  replace (naturalHeight bm <=? 0) with false by lia.
  cbn [orb]. split; [repeat split; reflexivity|].
  split; [reflexivity|]. split; [reflexivity|].
  intros i j I.
  cbn [set_lineJoin set_lineCap set_bitmap bitmap createCanvas
       globalCompositeOperation canvas_width canvas_height].
  unfold inCanvas. cbn [createCanvas canvas_width canvas_height].
  unfold inRaster in I. rewrite I.
  destruct (0 <=? i) eqn:E1; [|cbn in I; discriminate].
  destruct (i <? naturalWidth bm) eqn:E2; [|cbn in I; discriminate].
  destruct (0 <=? j) eqn:E3; [|cbn in I; discriminate].
  destruct (j <? naturalHeight bm) eqn:E4; [|cbn in I; discriminate].
  cbn [andb Z.add]. rewrite E2, E4. cbn [andb].
  rewrite !Z.sub_0_r, !Z.div_mul by lia.
  apply composite_over_transparent.
Qed.

Lemma overlay_render (pf : Platform) (props : Props) (s : State)
    (bm : ImageBitmap) (rect : DOMRect) :
  canvasRef pf = Some rect -> getContext2d pf = true ->
  loadImage pf (imageSrc props) = Some bm ->
  0 < naturalWidth bm -> 0 < naturalHeight bm ->
  imageDimensions s = mkDimensions (naturalWidth bm) (naturalHeight bm) ->
  Forall (fun p => (0 < brushSize p)%Q) (overlayStrokes props s) ->
  exists c,
    renderCanvas pf props s = Some c
    /\ canvas_width c = naturalWidth bm /\ canvas_height c = naturalHeight bm
    /\ forall i j,
         inRaster (naturalWidth bm) (naturalHeight bm) i j = true ->
         (Forall (misses pf i j) (overlayStrokes props s) ->
          bitmap c i j = sample bm i j)
         /\ (alpha (sample bm i j) = 255 -> alpha (bitmap c i j) = 255).
Proof.
  intros C G L Hw Hh D F.
  rewrite (renderCanvas_eq pf props s rect C G). eexists. split; [reflexivity|].
  destruct (overlayBase_native pf props s bm L Hw Hh D) as (R & W & H & Bm).
  destruct (overlay_fold_fields pf (overlayStrokes props s) (overlayBase pf props s))
    as (A & B).
  split; [rewrite A; exact W|]. split; [rewrite B; exact H|].
  intros i j I. split.
  - intros M. rewrite (overlay_fold_missed pf _ _ i j R F M). apply Bm, I.
  - intros O. apply (overlay_fold_opaque pf _ _ i j R). rewrite (Bm i j I). exact O.
Qed.



(** X7: for an idle recorder on a loaded image, overlay and export show
    the same pixel, the source's, wherever every stroke misses it; where
    a pixel lies wholly inside a stroke the export is fully transparent,
    while the overlay of an opaque source pixel stays opaque. *)
Theorem overlay_matches_mask (pf : Platform) (props : Props) (s : State)
    (bm : ImageBitmap) (rect : DOMRect) :
  canvasRef pf = Some rect -> getContext2d pf = true ->
  loadImage pf (imageSrc props) = Some bm ->
  0 < naturalWidth bm -> 0 < naturalHeight bm ->
  imageDimensions s = mkDimensions (naturalWidth bm) (naturalHeight bm) ->
  Forall (fun p => (0 < brushSize p)%Q) (paths s) ->
  currentPath s = [] ->
  exists c,
    renderCanvas pf props s = Some c
    /\ forall i j,
         inRaster (naturalWidth bm) (naturalHeight bm) i j = true ->
         (Forall (misses pf i j) (paths s) ->
          pixelOf (generateMaskedImage pf props s) i j = Some (bitmap c i j)
          /\ bitmap c i j = sample bm i j)
         /\ (Exists (fullyCovers pf i j) (paths s) ->
             fullyTransparent (generateMaskedImage pf props s) i j = true
             /\ (alpha (sample bm i j) = 255 -> alpha (bitmap c i j) = 255)).
Proof.
  intros C G L Hw Hh D F Cp.
  assert (O : overlayStrokes props s = paths s).
  { unfold overlayStrokes. rewrite Cp. cbn. apply app_nil_r. }
  destruct (overlay_render pf props s bm rect C G L Hw Hh D) as (c & E & _ & _ & B).
  { rewrite O. exact F. }
  exists c. split; [exact E|]. intros i j I.
  destruct (mask_pixel_value pf props s bm i j G L Hw Hh D F) as (_ & K).
  destruct (K I) as (K1 & K2 & _). destruct (B i j I) as (B1 & B2).
  rewrite O in B1. split.
  - intros M. rewrite (K1 M), (B1 M). split; reflexivity.
  - intros X. split; [|exact B2].
    unfold fullyTransparent. rewrite (K2 X). reflexivity.
Qed.

Lemma overlay_matches_mask_witness :
  exists c,
    renderCanvas samplePlatform (sampleProps "a" 40)
                 (setPaths (fun _ => [strokeA]) sampleLoaded) = Some c
    /\ forall i j,
         inRaster 320 240 i j = true ->
         (Forall (misses samplePlatform i j) [strokeA] ->
          pixelOf (generateMaskedImage samplePlatform (sampleProps "a" 40)
                     (setPaths (fun _ => [strokeA]) sampleLoaded)) i j
          = Some (bitmap c i j)
          /\ bitmap c i j = sample sampleImageA i j)
         /\ (Exists (fullyCovers samplePlatform i j) [strokeA] ->
             fullyTransparent
               (generateMaskedImage samplePlatform (sampleProps "a" 40)
                  (setPaths (fun _ => [strokeA]) sampleLoaded)) i j = true
             /\ (alpha (sample sampleImageA i j) = 255 -> alpha (bitmap c i j) = 255)).
Proof.
  refine (overlay_matches_mask samplePlatform (sampleProps "a" 40)
            (setPaths (fun _ => [strokeA]) sampleLoaded)
            sampleImageA (mkRect 0 0) eq_refl eq_refl eq_refl eq_refl eq_refl
            eq_refl _ eq_refl).
  repeat constructor.
Defined.

(** ** Steps of the recorder *)

(** The export reads the history and the stored dimensions, nothing else
    of the state. *)
Lemma generateMaskedImage_ext (pf : Platform) (props : Props) (s s' : State) :
  paths s = paths s' -> imageDimensions s = imageDimensions s' ->
  generateMaskedImage pf props s = generateMaskedImage pf props s'.
Proof.
  intros P D. unfold generateMaskedImage, maskCanvas. rewrite P, D. reflexivity.
Qed.

(** X9: releasing the pointer during a gesture with recorded points
    appends exactly one stroke holding them, returns the recorder to idle,
    repaints and exports the new mask; the pointer leaving the canvas does
    the same and exports the same mask. *)
Theorem gesture_end_commits (pf : Platform) (props : Props) (s : State) :
  isDrawing s = true -> currentPath s <> [] ->
  0 < width (imageDimensions s) ->
  let s' := stopDrawing props s in
  step pf (mkMounted props s) EvPointerUp
  = Some (mkMounted props s',
          [Painted (renderCanvas pf props s');
           Exported (generateMaskedImage pf props s')])
  /\ paths s' = paths s ++ [ {| points := currentPath s;
                                brushSize := brushSizeProp props |} ]
  /\ isDrawing s' = false /\ currentPath s' = []
  /\ exists painted,
       step pf (mkMounted props s) EvMouseLeave
       = Some (mkMounted props (setIsHovering false s'),
               [painted; Exported (generateMaskedImage pf props s')]).
Proof.
  intros D N W s'.
  assert (L : (0 <? Z.of_nat (List.length (currentPath s))) = true).
  { destruct (currentPath s); [congruence|]. reflexivity. }
  assert (E : s' = setCurrentPath (fun _ => [])
                  (setIsDrawing false
                     (setPaths (fun prev => prev ++ [ {| points := currentPath s;
                                  brushSize := brushSizeProp props |} ]) s))).
  { unfold s', stopDrawing. rewrite D, L. reflexivity. }
  assert (E2 : handleMouseLeave props s = setIsHovering false s').
  { unfold handleMouseLeave, s', stopDrawing.
    cbn [isDrawing currentPath setIsHovering]. rewrite D, L. reflexivity. }
  assert (Wt : (0 <? width (imageDimensions s)) = true) by lia.
  split; [|split; [rewrite E; reflexivity|split; [rewrite E; reflexivity|
           split; [rewrite E; reflexivity|]]]].
  - rewrite step_eq. cbn [handle m_props m_state]. fold s'.
    unfold commitEffects.
    rewrite (loadEffect_same_src props props s s' eq_refl), needsRender_refl.
    rewrite (renderEffect_paths pf props props s s') by (rewrite E; reflexivity).
    rewrite (exportEffect_paths pf props props s s') by (rewrite E; reflexivity).
    replace (imageDimensions s') with (imageDimensions s) by (rewrite E; reflexivity).
    rewrite Wt. reflexivity.
  - eexists. rewrite step_eq. cbn [handle m_props m_state]. rewrite E2.
    unfold commitEffects.
    rewrite (loadEffect_same_src props props s _ eq_refl), needsRender_refl.
    rewrite (renderEffect_paths pf props props s (setIsHovering false s'))
      by (rewrite E; reflexivity).
    rewrite (exportEffect_paths pf props props s (setIsHovering false s'))
      by (rewrite E; reflexivity).
    replace (imageDimensions (setIsHovering false s')) with (imageDimensions s)
      by (rewrite E; reflexivity).
    rewrite Wt.
    rewrite (generateMaskedImage_ext pf props (setIsHovering false s') s')
      by reflexivity.
    reflexivity.
Qed.

Lemma gesture_end_commits_witness :
  step samplePlatform (mkMounted (sampleProps "a" 40) sampleDrawing) EvPointerUp
  = Some (mkMounted (sampleProps "a" 40)
                    (stopDrawing (sampleProps "a" 40) sampleDrawing),
          [Painted (renderCanvas samplePlatform (sampleProps "a" 40)
                      (stopDrawing (sampleProps "a" 40) sampleDrawing));
           Exported (generateMaskedImage samplePlatform (sampleProps "a" 40)
                       (stopDrawing (sampleProps "a" 40) sampleDrawing))]).
Proof.
  refine (proj1 (gesture_end_commits samplePlatform (sampleProps "a" 40)
                   sampleDrawing eq_refl _ eq_refl)).
  discriminate.
Defined.

(** X10: the undo button on a history [S ++ [last]] of a loaded image
    repaints and exports once, and the export is the export of [S]. *)
Theorem undo_step (pf : Platform) (props : Props) (s : State)
    (S0 : list DrawPath) (last : DrawPath) :
  paths s = S0 ++ [last] ->
  0 < width (imageDimensions s) ->
  step pf (mkMounted props s) EvUndo
  = Some (mkMounted props (handleUndo s),
          [Painted (renderCanvas pf props (handleUndo s));
           Exported (generateMaskedImage pf props (handleUndo s))])
  /\ paths (handleUndo s) = S0
  /\ generateMaskedImage pf props (handleUndo s)
     = generateMaskedImage pf props (setPaths (fun _ => S0) s).
Proof.
  intros P W.
  assert (Pu : paths (handleUndo s) = S0).
  { unfold handleUndo, setPaths; cbn [paths]. rewrite P. apply js_slice_drop_last. }
  split; [|split; [exact Pu|]].
  - rewrite step_eq. cbn [handle m_props m_state].
    assert (L : Nat.eqb (List.length (paths s)) 0 = false).
    { rewrite P, length_app. cbn. apply Nat.eqb_neq. lia. }
    rewrite L. unfold commitEffects.
    rewrite (loadEffect_same_src props props s (handleUndo s) eq_refl).
    rewrite needsRender_refl.
    rewrite (renderEffect_paths pf props props s (handleUndo s) eq_refl).
    rewrite (exportEffect_paths pf props props s (handleUndo s) eq_refl).
    change (imageDimensions (handleUndo s)) with (imageDimensions s).
    replace (0 <? width (imageDimensions s)) with true by lia.
    reflexivity.
  - apply generateMaskedImage_ext; [exact Pu | reflexivity].
Qed.

Lemma undo_step_witness :
  paths (handleUndo (setPaths (fun _ => [strokeA; strokeB]) sampleLoaded))
  = [strokeA].
Proof.
  exact (proj1 (proj2 (undo_step samplePlatform (sampleProps "a" 40)
                         (setPaths (fun _ => [strokeA; strokeB]) sampleLoaded)
                         [strokeA] strokeB eq_refl eq_refl))).
Defined.

Lemma startDrawing_cells (pf : Platform) (s s' : State) (e : PointerEvent) :
  startDrawing pf s e = Normal s' -> sameExportCells s s'.
Proof.
  unfold startDrawing, getCoordinates.
  destruct e as [cx cy|ts]; destruct (canvasRef pf);
    cbn; try (destruct ts); cbn; intros E; inversion E; split; reflexivity.
Qed.

Lemma draw_cells (pf : Platform) (s s' : State) (e : PointerEvent) :
  draw pf s e = Normal s' -> sameExportCells s s'.
Proof.
  unfold draw, getCoordinates.
  destruct e as [cx cy|ts]; destruct (canvasRef pf); destruct (isDrawing s);
    cbn; try (destruct ts); cbn; intros E; inversion E; split; reflexivity.
Qed.

(** A commit whose export dependencies are those of the previous commit
    exports nothing. *)
Lemma quiet_step (pf : Platform) (m : Mounted) (ev : Event) :
  imageSrc (fst (handle pf m ev)) = imageSrc (m_props m) ->
  onExportImageForAI (fst (handle pf m ev)) = onExportImageForAI (m_props m) ->
  sameExportCells (m_state m) (snd (handle pf m ev)) ->
  firstExport (outputsOf (step pf m ev)) = None.
Proof.
  intros Es Eo (Ep & Ed). rewrite step_eq.
  destruct (handle pf m ev) as [props' s']. cbn [fst snd] in *.
  unfold commitEffects.
  rewrite (loadEffect_same_src (m_props m) props' (m_state m) s' (eq_sym Es)).
  rewrite needsRender_refl. cbn [outputsOf app].
  rewrite firstExport_app, renderEffect_no_export.
  unfold exportEffect, paths_changed, imageSrc_changed, imageDimensions_changed,
    onExport_changed.
  rewrite Ep, Ed, Es, Eo, !Nat.eqb_refl, String.eqb_refl. reflexivity.
Qed.

(** X11: pressing or moving the pointer, entering the canvas and
    changing the brush size alone never export a mask. *)
Theorem pointer_events_do_not_export (pf : Platform) (m : Mounted)
    (e : PointerEvent) (size : Q) :
  firstExport (outputsOf (step pf m (EvPointerDown e))) = None
  /\ firstExport (outputsOf (step pf m (EvPointerMove e))) = None
  /\ firstExport (outputsOf (step pf m EvMouseEnter)) = None
  /\ firstExport
       (outputsOf
          (step pf m (EvProps (mkProps (imageSrc (m_props m)) size
                                       (onExportImageForAI (m_props m))))))
     = None.
Proof.
  repeat split; apply quiet_step; try reflexivity; cbn [handle snd].
  - destruct (startDrawing pf (m_state m) e) eqn:E; [|split; reflexivity].
    apply (startDrawing_cells _ _ _ _ E).
  - destruct (draw pf (m_state m) e) eqn:E; [|split; reflexivity].
    apply (draw_cells _ _ _ _ E).
  - split; reflexivity.
  - split; reflexivity.
Qed.

Lemma renderEffect_currentPath (pf : Platform) (p0 props : Props) (s0 s : State) :
  currentPath_id s = S (currentPath_id s0) ->
  renderEffect pf (Some (p0, s0)) props s = [Painted (renderCanvas pf props s)].
Proof.
  intros E. unfold renderEffect, currentPath_changed. rewrite E, Nat_eqb_succ.
  cbn [negb]. rewrite orb_true_r. reflexivity.
Qed.

(** X12: a mouse move during a gesture on a mounted canvas appends
    exactly one point, the pointer position in image space, leaves the
    history alone, and repaints the overlay without exporting. *)
Theorem pointer_move_records_and_repaints (pf : Platform) (props : Props)
    (s : State) (rect : DOMRect) (cx cy : Q) :
  canvasRef pf = Some rect -> isDrawing s = true ->
  exists s',
    step pf (mkMounted props s) (EvPointerMove (MouseEvent cx cy))
    = Some (mkMounted props s', [Painted (renderCanvas pf props s')])
    /\ currentPath s'
       = currentPath s ++ [toImageSpace cx cy (left rect) (top rect) (scale s)]
    /\ paths s' = paths s /\ isDrawing s' = true.
Proof.
  intros C D.
  set (s' := setCurrentPath
               (fun prev => prev ++ [toImageSpace cx cy (left rect)
                                        (top rect) (scale s)])
               (setCursorPos (Some {| x := (cx - left rect)%Q;
                                      y := (cy - top rect)%Q |}) s)).
  assert (E : draw pf s (MouseEvent cx cy) = Normal s').
  { unfold draw, getCoordinates. rewrite C, D. reflexivity. }
  exists s'. split; [|split; [|split]].
  - rewrite step_eq. cbn [handle m_props m_state]. rewrite E.
    unfold commitEffects.
    rewrite (loadEffect_same_src props props s s' eq_refl), needsRender_refl.
    rewrite (renderEffect_currentPath pf props props s s' eq_refl).
    unfold exportEffect, paths_changed, imageSrc_changed, imageDimensions_changed,
      onExport_changed.
    change (paths_id s') with (paths_id s).
    change (imageDimensions_id s') with (imageDimensions_id s).
    rewrite !Nat.eqb_refl, String.eqb_refl. reflexivity.
  - reflexivity.
  - reflexivity.
  - exact D.
Qed.

Lemma pointer_move_records_and_repaints_witness :
  exists s',
    step samplePlatform (mkMounted (sampleProps "a" 40) sampleDrawing)
         (EvPointerMove (MouseEvent 110 100))
    = Some (mkMounted (sampleProps "a" 40) s',
            [Painted (renderCanvas samplePlatform (sampleProps "a" 40) s')])
    /\ currentPath s'
       = currentPath sampleDrawing
         ++ [toImageSpace 110 100 (left (mkRect 0 0)) (top (mkRect 0 0))
                          (scale sampleDrawing)]
    /\ paths s' = paths sampleDrawing /\ isDrawing s' = true.
Proof.
  exact (pointer_move_records_and_repaints samplePlatform (sampleProps "a" 40)
           sampleDrawing (mkRect 0 0) 110 100 eq_refl eq_refl).
Defined.

(** X16: a change of the image source during a gesture empties the
    history and the in-progress points but leaves [isDrawing] set. *)
Theorem image_change_keeps_gesture (pf : Platform) (m : Mounted) (props' : Props) :
  isDrawing (m_state m) = true ->
  imageSrc props' <> imageSrc (m_props m) ->
  exists m' out,
    step pf m (EvProps props') = Some (m', out)
    /\ isDrawing (m_state m') = true
    /\ currentPath (m_state m') = [] /\ paths (m_state m') = [].
Proof.
  intros D N. destruct (step_state pf m (EvProps props')) as (out & E).
  rewrite E. eexists; eexists. split; [reflexivity|].
  cbn [handle fst snd m_state]. unfold loadEffect.
  assert (C : imageSrc_changed (Some (m_props m, m_state m)) props' = true).
  { unfold imageSrc_changed. apply negb_true_iff, String.eqb_neq. congruence. }
  rewrite C. cbn [fst]. repeat split. exact D.
Qed.

Lemma image_change_keeps_gesture_witness :
  exists m' out,
    step samplePlatform (mkMounted (sampleProps "a" 40) sampleDrawing)
         (EvProps (sampleProps "b" 40)) = Some (m', out)
    /\ isDrawing (m_state m') = true
    /\ currentPath (m_state m') = [] /\ paths (m_state m') = [].
Proof.
  refine (image_change_keeps_gesture samplePlatform
            (mkMounted (sampleProps "a" 40) sampleDrawing)
            (sampleProps "b" 40) eq_refl _).
  cbn. discriminate.
Defined.

(** ** Displayed size *)

Open Scope Q_scope.



(** X14: in a viewport at most 32 wide the scale stored by [onload] is
    not positive. *)
Theorem narrow_viewport_scale (pf : Platform) (w h : Z) (s : State) :
  (1 <= w)%Z -> (innerWidth pf <= 32)%Z ->
  scale (img_onload pf w h s) <= 0.
Proof.
  intros Hw Hi. cbn [img_onload scale setScale setImageDimensions].
  assert (Qw : 1 <= inject_Z w) by (change 1 with (inject_Z 1); rewrite <- Zle_Qle; exact Hw).
  assert (Qi : inject_Z (innerWidth pf - 32) <= 0)
    by (change 0 with (inject_Z 0); rewrite <- Zle_Qle; lia).
  set (W := inject_Z w) in *. set (I := inject_Z (innerWidth pf - 32)) in *.
  unfold viewportMaxWidth. fold I.
  assert (M : Qmin I 800 <= 0).
  { destruct (Q.min_spec I 800) as [[L1 E1] | [L1 E1]]; lra. }
  destruct (Math_min3_cases (Qmin I 800 / W) (viewportMaxHeight / inject_Z h) 1)
    as (La & _).
  fold (computeScale W (inject_Z h) (Qmin I 800) viewportMaxHeight) in La.
  assert (A : Qmin I 800 / W <= 0).
  { apply Qle_shift_div_r; lra. }
  lra.
Qed.

Lemma narrow_viewport_scale_witness :
  scale (img_onload (mkPlatform 20 None true (fun _ => None) roundRasterizer)
                    320 240 initialState) <= 0.
Proof.
  apply (narrow_viewport_scale
           (mkPlatform 20 None true (fun _ => None) roundRasterizer)
           320 240 initialState); cbn; lia.
Defined.

(** X15: with a scale in (0, 1], as [onload] stores it for a loaded
    image, [getCoordinates] sends the corner of the canvas to the origin
    of the image, keeps the order of pointer positions on both axes, and
    never brings a position nearer to the origin: positions left of or
    above the canvas get negative coordinates, nothing is clamped. *)
Theorem pointer_mapping_monotone (rect : DOMRect) (sc : Q) :
  0 < sc -> sc <= 1 ->
  (exists p,
     getCoordinates (Some rect) sc (MouseEvent (left rect) (top rect))
     = Normal (Some p)
     /\ x p == 0 /\ y p == 0)
  /\ (forall cx cy cx' cy',
        cx <= cx' -> cy <= cy' ->
        exists p p',
          getCoordinates (Some rect) sc (MouseEvent cx cy) = Normal (Some p)
          /\ getCoordinates (Some rect) sc (MouseEvent cx' cy') = Normal (Some p')
          /\ x p <= x p' /\ y p <= y p')
  /\ (forall cx cy,
        exists p,
          getCoordinates (Some rect) sc (MouseEvent cx cy) = Normal (Some p)
          /\ (left rect <= cx -> cx - left rect <= x p)
          /\ (cx <= left rect -> x p <= cx - left rect)
          /\ (top rect <= cy -> cy - top rect <= y p)
          /\ (cy <= top rect -> y p <= cy - top rect)).
Proof.
  intros Hs H1.
  assert (D : forall a, a / sc == a * / sc) by (intros a; reflexivity).
  assert (Hi : 1 <= / sc).
  { assert (E : sc * / sc == 1) by (apply Qmult_inv_r; lra).
    assert (P : 0 < / sc) by (apply Qinv_lt_0_compat; exact Hs).
    nra. }
  split; [|split].
  - eexists. split; [reflexivity|]. unfold toImageSpace; cbn [x y].
    rewrite !D. split; ring.
  - intros cx cy cx' cy' Lx Ly. eexists; eexists.
    split; [reflexivity|]. split; [reflexivity|].
    unfold toImageSpace; cbn [x y]. rewrite !D. split; nra.
  - intros cx cy. eexists. split; [reflexivity|].
    unfold toImageSpace; cbn [x y]. rewrite !D.
    repeat split; intros L; nra.
Qed.

Lemma pointer_mapping_monotone_witness :
  exists p,
    getCoordinates (Some (mkRect 8 16)) (1 # 2) (MouseEvent 8 16) = Normal (Some p)
    /\ x p == 0 /\ y p == 0.
Proof.
  refine (proj1 (pointer_mapping_monotone (mkRect 8 16) (1 # 2) _ _)).
  - reflexivity.
  - unfold Qle; cbn; lia.
Defined.

(** X22: the brush-size buttons keep the size within 5 and 150: the
    result is the sum when the sum is in range and the nearer bound
    otherwise. *)
Theorem adjustBrushSize_range (delta prev : Q) :
  5 <= adjustBrushSize delta prev /\ adjustBrushSize delta prev <= 150
  /\ (5 <= prev + delta -> prev + delta <= 150 ->
      adjustBrushSize delta prev == prev + delta)
  /\ (150 <= prev + delta -> adjustBrushSize delta prev == 150)
  /\ (prev + delta <= 5 -> adjustBrushSize delta prev == 5).
Proof.
  unfold adjustBrushSize.
  destruct (Q.min_spec 150 (prev + delta)) as [[L1 E1] | [L1 E1]];
  destruct (Q.max_spec 5 (Qmin 150 (prev + delta))) as [[L2 E2] | [L2 E2]];
  repeat split; intros; lra.
Qed.

(** ** The generation service *)

Open Scope string_scope.

Lemma stripPrefix_spec (p : string) : forall s r,
  stripPrefix p s = Some r <-> s = p ++ r.
Proof.
  induction p as [|a p IH]; intros s r; cbn [stripPrefix append].
  - split; [intros E; inversion E; reflexivity | intros E; subst; reflexivity].
  - destruct s as [|b s].
    + split; discriminate.
    + destruct (Ascii.eqb a b) eqn:E.
      * apply Ascii.eqb_eq in E. subst b. rewrite IH.
        split; [intros ->; reflexivity | intros H; inversion H; reflexivity].
      * apply Ascii.eqb_neq in E. split; [discriminate|].
        intros H; inversion H; congruence.
Qed.

Lemma stripPrefix_app (p r : string) : stripPrefix p (p ++ r) = Some r.
Proof. apply stripPrefix_spec. reflexivity. Qed.

Lemma truthy_nonempty (v : option string) :
  truthy v = true -> exists s, v = Some s /\ s <> "".
Proof.
  destruct v as [s|]; cbn [truthy]; [|discriminate].
  intros H. exists s. split; [reflexivity|].
  apply negb_true_iff, String.eqb_neq in H. exact H.
Qed.

(** X17: stripping removes one leading data-URL header of a PNG, JPEG
    or WebP image and nothing else: the input is either returned as it is
    or is one of the three headers followed by the result. *)
Theorem cleanBase64_prefixes (d : string) :
  cleanBase64 ("data:image/png;base64," ++ d) = d
  /\ cleanBase64 ("data:image/jpeg;base64," ++ d) = d
  /\ cleanBase64 ("data:image/webp;base64," ++ d) = d
  /\ cleanBase64 ("data:image/png;base64," ++ "data:image/png;base64," ++ d)
     = "data:image/png;base64," ++ d
  /\ (cleanBase64 d = d
      \/ d = "data:image/png;base64," ++ cleanBase64 d
      \/ d = "data:image/jpeg;base64," ++ cleanBase64 d
      \/ d = "data:image/webp;base64," ++ cleanBase64 d).
Proof.
  split; [reflexivity|]. split; [reflexivity|]. split; [reflexivity|].
  split; [reflexivity|].
  unfold cleanBase64.
  destruct (stripPrefix "data:image/png;base64," d) as [r|] eqn:E1.
  { right; left. apply stripPrefix_spec. exact E1. }
  destruct (stripPrefix "data:image/jpeg;base64," d) as [r|] eqn:E2.
  { right; right; left. apply stripPrefix_spec. exact E2. }
  destruct (stripPrefix "data:image/webp;base64," d) as [r|] eqn:E3.
  { right; right; right. apply stripPrefix_spec. exact E3. }
  left. reflexivity.
Qed.

(** The loop over the parts returns the data of the first part that has
    non-empty inline data. *)
Lemma findInlineImage_spec (ps : list Part) (d : string) :
  findInlineImage ps = Some d ->
  d <> ""
  /\ exists before part blob after,
       ps = (before ++ part :: after)%list
       /\ inlineData part = Some blob /\ blob_data blob = Some d
       /\ Forall noInlineImage before.
Proof.
  induction ps as [|p ps IH]; cbn [findInlineImage]; [discriminate|].
  destruct (inlineData p) as [b|] eqn:Ip.
  - destruct (truthy (blob_data b)) eqn:T.
    + intros E. destruct (truthy_nonempty _ T) as (s & Es & Ns).
      rewrite Es in E. inversion E; subst s.
      split; [exact Ns|]. exists [], p, b, ps. repeat split; auto.
    + intros E. destruct (IH E) as (N & before & part & blob & after & Eps & Ei & Eb & F).
      split; [exact N|].
      exists (p :: before), part, blob, after.
      split; [cbn [app]; f_equal; exact Eps|].
      split; [exact Ei|]. split; [exact Eb|].
      constructor; [unfold noInlineImage; rewrite Ip; exact T | exact F].
  - intros E. destruct (IH E) as (N & before & part & blob & after & Eps & Ei & Eb & F).
    split; [exact N|].
    exists (p :: before), part, blob, after.
    split; [cbn [app]; f_equal; exact Eps|].
    split; [exact Ei|]. split; [exact Eb|].
    constructor; [unfold noInlineImage; rewrite Ip; exact I | exact F].
Qed.

Lemma truthy_js_or (a b : option string) :
  truthy (js_or a b) = truthy a || truthy b.
Proof. unfold js_or. destruct (truthy a) eqn:E; [rewrite E|]; reflexivity. Qed.

(** X18: one call of [generateFill] sends at most one request, the one
    carrying the stripped image data labelled image/png and the prompt,
    and it sends it exactly when the key lookup completes with a
    non-empty key.  A lookup that throws rejects the call with that
    error: a [TypeError] exactly when [process] exists without an [env],
    a [ReferenceError] exactly when [process] yields no key and there is
    no [window].  A lookup that completes without a key rejects with the
    missing-key message. *)
Theorem generateFill_requests (g : Globals) (typeErrorMessage : string -> string)
    (api : Request -> ApiResult) (imageDataBase64 prompt : string) :
  let r := generateFillIn g typeErrorMessage api imageDataBase64 prompt in
  (fst r = []
   \/ fst r = [ {| req_model := "gemini-2.5-flash-image";
                   req_data := cleanBase64 imageDataBase64;
                   req_mimeType := "image/png";
                   req_text := promptText prompt |} ])
  /\ (fst r <> [] <-> exists k, readApiKey g = inr (Some k) /\ k <> "")
  /\ (forall e, readApiKey g = inl e -> r = ([], inl e))
  /\ (forall k, readApiKey g = inr k -> truthy k = false ->
      r = ([], inr (Rejected
             "API Key is missing. Please check your environment configuration.")))
  /\ (readApiKey g = inl LookupTypeError
      <-> exists p, processGlobal g = Some p /\ env p = None)
  /\ (readApiKey g = inl LookupReferenceError
      <-> (exists k, processKey g = inr k /\ truthy k = false)
          /\ windowProcess g = None).
Proof.
  cbv zeta. unfold generateFillIn, readApiKey, keySources.
  destruct (processKey g) as [e1|a] eqn:P.
  - (* the first operand throws *)
    assert (T : e1 = LookupTypeError /\ exists p, processGlobal g = Some p /\ env p = None).
    { unfold processKey in P. destruct (processGlobal g) as [p|]; [|discriminate].
      destruct (env p) eqn:E; [discriminate|]. inversion P. split; [reflexivity|].
      exists p. split; [reflexivity | exact E]. }
    destruct T as (-> & T).
    cbn [fst snd]. split; [left; reflexivity|].
    split; [split; [congruence | intros (k & H & _); discriminate]|].
    split; [intros e H; inversion H; reflexivity|].
    split; [intros k H; discriminate|].
    split; [split; [intros _; exact T | reflexivity]|].
    split; [discriminate | intros ((k & H & _) & _); discriminate].
  - assert (NT : ~ exists p, processGlobal g = Some p /\ env p = None).
    { intros (p & Hp & He). unfold processKey in P. rewrite Hp, He in P. discriminate. }
    destruct (truthy a) eqn:Ta.
    + (* the first operand is truthy *)
      unfold generateFill. cbn [processEnvKey windowEnvKey].
      assert (J : js_or a None = a) by (unfold js_or; rewrite Ta; reflexivity).
      rewrite J, Ta. cbn [negb fst snd].
      destruct (truthy_nonempty a Ta) as (k & -> & Nk).
      split; [right; reflexivity|].
      split; [split; [intros _; exists k; split; [reflexivity | exact Nk] | discriminate]|].
      split; [discriminate|].
      split; [intros k' H F; inversion H; subst; rewrite Ta in F; discriminate|].
      split; [split; [discriminate | intros H; destruct (NT H)]|].
      split; [discriminate|].
      intros ((k' & H & F) & _). inversion H; subst. rewrite Ta in F. discriminate.
    + destruct (windowKey g) as [e2|b] eqn:W.
      * (* the second operand throws *)
        assert (R : e2 = LookupReferenceError /\ windowProcess g = None).
        { unfold windowKey in W. destruct (windowProcess g) as [[p|]|]; try discriminate.
          - destruct (env p); discriminate.
          - inversion W. split; reflexivity. }
        destruct R as (-> & R). cbn [fst snd].
        split; [left; reflexivity|].
        split; [split; [congruence | intros (k & H & _); discriminate]|].
        split; [intros e H; inversion H; reflexivity|].
        split; [intros k H; discriminate|].
        split; [split; [discriminate | intros H; destruct (NT H)]|].
        split; [intros _; split; [exists a; split; [reflexivity | exact Ta] | exact R]
               | reflexivity].
      * assert (NR : windowProcess g <> None).
        { intros N. unfold windowKey in W. rewrite N in W. discriminate. }
        unfold generateFill. cbn [processEnvKey windowEnvKey].
        assert (J : js_or a b = b) by (unfold js_or; rewrite Ta; reflexivity).
        rewrite J.
        destruct (truthy b) eqn:Tb; cbn [negb fst snd].
        -- destruct (truthy_nonempty b Tb) as (k & -> & Nk).
           split; [right; reflexivity|].
           split; [split; [intros _; exists k; split; [reflexivity | exact Nk]
                          | discriminate]|].
           split; [discriminate|].
           split; [intros k' H F; inversion H; subst; rewrite Tb in F; discriminate|].
           split; [split; [discriminate | intros H; destruct (NT H)]|].
           split; [discriminate | intros (_ & N); destruct (NR N)].
        -- split; [left; reflexivity|].
           split; [split; [congruence|]|].
           { intros (k & H & Nk). inversion H; subst. cbn [truthy] in Tb.
             apply negb_false_iff, String.eqb_eq in Tb. congruence. }
           split; [discriminate|].
           split; [intros k' H F; reflexivity|].
           split; [split; [discriminate | intros H; destruct (NT H)]|].
           split; [discriminate | intros (_ & N); destruct (NR N)].
Qed.

(** A bundler shim that defines [process] without [env]: the lookup
    throws and nothing is sent, although [window] carries a key. *)
Example generateFill_process_without_env :
  generateFillIn
    (mkGlobals (Some (mkProcess None))
               (Some (Some (mkProcess (Some (mkEnv (Some "k")))))))
    (typeErrorMessage sampleRuntime) sampleApi "data:image/png;base64,AAAA" "a cat"
  = ([], inl LookupTypeError).
Proof. reflexivity. Qed.

(** X19: when [generateFill] resolves, the service answered with a
    first candidate whose parts hold non-empty inline data, and the URL is
    the PNG header followed by the first such data; stripping the URL
    gives the data back. *)
Theorem generateFill_success (rt : Runtime) (api : Request -> ApiResult)
    (imageDataBase64 prompt url : string) :
  snd (generateFill rt api imageDataBase64 prompt) = Resolved url ->
  exists first rest c ps d,
    api (buildRequest imageDataBase64 prompt)
    = ApiResolved (mkResponse (Some (first :: rest)))
    /\ content first = Some c /\ parts c = Some ps
    /\ findInlineImage ps = Some d /\ d <> ""
    /\ url = "data:image/png;base64," ++ d
    /\ cleanBase64 url = d.
Proof.
  unfold generateFill.
  destruct (negb (truthy (js_or (processEnvKey rt) (windowEnvKey rt))));
    cbn [snd]; [discriminate|].
  unfold readResponse.
  destruct (api (buildRequest imageDataBase64 prompt)) as [m|[cs]];
    [discriminate|]. cbn [candidates].
  destruct cs as [[|first rest]|]; try discriminate.
  destruct (content first) as [c|] eqn:Ec; [|discriminate].
  destruct (parts c) as [ps|] eqn:Ep; [|cbn [truthy]; discriminate].
  destruct (findInlineImage ps) as [d|] eqn:Ef.
  - destruct (truthy (Some d)) eqn:T.
    + intros E. inversion E; subst url.
      destruct (findInlineImage_spec ps d Ef) as (N & _).
      exists first, rest, c, ps, d. repeat split; auto.
    + destruct (find _ ps); discriminate.
  - cbn [truthy]. destruct (find _ ps); discriminate.
Qed.

Lemma generateFill_success_witness :
  exists first rest c ps d,
    sampleApi (buildRequest "data:image/png;base64,AAAA" "a hat")
    = ApiResolved (mkResponse (Some (first :: rest)))
    /\ content first = Some c /\ parts c = Some ps
    /\ findInlineImage ps = Some d /\ d <> ""
    /\ "data:image/png;base64,QUJD" = "data:image/png;base64," ++ d
    /\ cleanBase64 "data:image/png;base64,QUJD" = d.
Proof.
  exact (generateFill_success sampleRuntime sampleApi
           "data:image/png;base64,AAAA" "a hat" "data:image/png;base64,QUJD"
           eq_refl).
Defined.

(** X20: a rejection of [generateFill] never carries an empty
    message. *)
Theorem generateFill_error_message (rt : Runtime) (api : Request -> ApiResult)
    (imageDataBase64 prompt message : string) :
  snd (generateFill rt api imageDataBase64 prompt) = Rejected message ->
  message <> "".
Proof.
  unfold generateFill.
  destruct (negb (truthy (js_or (processEnvKey rt) (windowEnvKey rt))));
    cbn [snd].
  - intros E. inversion E. discriminate.
  - destruct (readResponse rt (api (buildRequest imageDataBase64 prompt)))
      as [u|m]; [discriminate|].
    intros E. inversion E as [Em]. clear E.
    destruct (truthy m) eqn:T.
    + destruct (truthy_nonempty _ T) as (s & Es & Ns). subst m. exact Ns.
    + discriminate.
Qed.

Lemma generateFill_error_message_witness :
  "Failed to generate image." <> "".
Proof.
  exact (generateFill_error_message sampleRuntime (fun _ => ApiRejected None)
           "data:image/png;base64,AAAA" "a hat" "Failed to generate image."
           eq_refl).
Defined.

(** X21: when the first candidate has parts but none with inline data,
    [generateFill] rejects with the text of the first part that has text,
    or with a fixed message when no part has. *)
Theorem generateFill_text_only (rt : Runtime) (api : Request -> ApiResult)
    (imageDataBase64 prompt : string) (first : Candidate) (rest : list Candidate)
    (ps : list Part) :
  truthy (processEnvKey rt) || truthy (windowEnvKey rt) = true ->
  api (buildRequest imageDataBase64 prompt)
  = ApiResolved (mkResponse (Some (first :: rest))) ->
  content first = Some (mkContent (Some ps)) ->
  findInlineImage ps = None ->
  snd (generateFill rt api imageDataBase64 prompt)
  = Rejected
      match find (fun p => truthy (text p)) ps with
      | Some textPart =>
          "AI Response (Text only): "
          ++ match text textPart with Some t => t | None => "" end
      | None => "AI did not return an image."
      end.
Proof.
  intros K A C F. unfold generateFill. rewrite truthy_js_or, K. cbn [negb snd].
  unfold readResponse. rewrite A. cbn [candidates]. rewrite C. cbn [parts].
  rewrite F. cbn [truthy].
  destruct (find (fun p => truthy (text p)) ps) as [tp|] eqn:Ft.
  - apply find_some in Ft. destruct Ft as (_ & Tt).
    destruct (truthy_nonempty _ Tt) as (t & Et & Nt). rewrite Et.
    reflexivity.
  - reflexivity.
Qed.

Lemma generateFill_text_only_witness :
  snd (generateFill sampleRuntime
         (fun _ => ApiResolved
                     (mkResponse
                        (Some [mkCandidate
                                 (Some (mkContent
                                          (Some [mkPart None None;
                                                 mkPart None (Some "I cannot do that")])))])))
         "data:image/png;base64,AAAA" "a hat")
  = Rejected "AI Response (Text only): I cannot do that".
Proof.
  exact (generateFill_text_only sampleRuntime _
           "data:image/png;base64,AAAA" "a hat"
           (mkCandidate (Some (mkContent
                                 (Some [mkPart None None;
                                        mkPart None (Some "I cannot do that")]))))
           [] [mkPart None None; mkPart None (Some "I cannot do that")]
           eq_refl eq_refl eq_refl eq_refl).
Defined.

Close Scope string_scope.
